(** * lx-lsp: metadata parser, note index and query handlers

    A shallow embedding of the Go sources of lx-lsp
    ([pkg/metadata/parser.go], [server/server.go], [server/handlers.go])
    together with the properties that its specification states about them.

    Go strings are byte sequences; they are modelled as [list ascii]
    (an [ascii] is one byte).  Every library routine the program calls is
    modelled on bytes:

    - [strings.TrimSpace] removes leading and trailing Unicode white space;
      the white-space runes are a finite set, listed below by their UTF-8
      encodings ([spaceRunes]);
    - [strings.ToLower] and [strings.EqualFold] have an ASCII fast path,
      which is modelled byte by byte, and a rune-wise slow path that needs
      the Unicode case tables; the slow path is taken from the [Unicode]
      class, so every general statement holds whatever the tables are;
    - the regular expressions of the program only use literal bytes, ASCII
      classes and negated single-byte classes, so that matching on bytes
      and matching on runes coincide;
    - [bufio.Scanner] is modelled with its line splitting, the removal of a
      trailing carriage return and its token limit [MaxScanTokenSize];
    - the file system, the clock and the vault collaborator are explicit
      arguments. *)

From Stdlib Require Import Ascii String ZArith List Bool Lia DecimalString Sorted.
From stdpp Require Import gmap strings list fin_maps.
Import ListNotations.

Open Scope string_scope.
Open Scope list_scope.

(** ** Byte strings *)

Abbreviation str := (list ascii).

Coercion list_ascii_of_string : string >-> list.

Definition code (c : ascii) : N := N_of_ascii c.

Definition LF : ascii := ascii_of_N 10.
Definition CR : ascii := ascii_of_N 13.

(** [utf8.RuneSelf] is 0x80: bytes below it are single-byte runes. *)
Definition isASCII (c : ascii) : bool := (code c <? 128)%N.

Definition isDigit (c : ascii) : bool := ((48 <=? code c) && (code c <=? 57))%N.
Definition isUpper (c : ascii) : bool := ((65 <=? code c) && (code c <=? 90))%N.
Definition isLower (c : ascii) : bool := ((97 <=? code c) && (code c <=? 122))%N.

Definition lowerByte (c : ascii) : ascii :=
  if isUpper c then ascii_of_N (code c + 32) else c.

(** *** Package [strings] *)

(** The test [len(l) == 0], also used for the empty string. *)
Definition isEmpty {A : Type} (l : list A) : bool :=
  match l with [] => true | _ :: _ => false end.

Fixpoint HasPrefix (s prefix : str) {struct prefix} : bool :=
  match prefix, s with
  | [], _ => true
  | _ :: _, [] => false
  | p :: prefix', c :: s' => Ascii.eqb c p && HasPrefix s' prefix'
  end.

Definition HasSuffix (s suffix : str) : bool :=
  HasPrefix (rev s) (rev suffix).

Definition TrimPrefix (s prefix : str) : str :=
  if HasPrefix s prefix then skipn (length prefix) s else s.

Definition TrimSuffix (s suffix : str) : str :=
  if HasSuffix s suffix then firstn (length s - length suffix) s else s.

Definition strEq (a b : str) : bool := bool_decide (a = b).

(** [strings.Split(s, sep)] for a one-byte separator, the only kind the
    program uses.  The result is never empty: the split of the empty string is one empty string. *)
Fixpoint Split (s : str) (sep : ascii) : list str :=
  match s with
  | [] => [[]]
  | c :: r =>
      if Ascii.eqb c sep then [] :: Split r sep
      else match Split r sep with
           | x :: xs => (c :: x) :: xs
           | [] => [[c]]
           end
  end.

(** [strings.SplitN(s, sep, n)] for a one-byte separator and [n >= 0]. *)
Fixpoint SplitN (s : str) (sep : ascii) (n : nat) : list str :=
  match n with
  | 0 => []
  | 1 => [s]
  | S n' =>
      match s with
      | [] => [[]]
      | c :: r =>
          if Ascii.eqb c sep then [] :: SplitN r sep n'
          else match SplitN r sep n with
               | x :: xs => (c :: x) :: xs
               | [] => [[c]]
               end
      end
  end.

Fixpoint Join (elems : list str) (sep : str) : str :=
  match elems with
  | [] => []
  | [x] => x
  | x :: rest => x ++ sep ++ Join rest sep
  end.

(** The table [asciiSpace] of package [strings]: tab, line feed, vertical
    tab, form feed, carriage return and space. *)
Definition isASCIISpace (c : ascii) : bool :=
  (((9 <=? code c) && (code c <=? 13)) || (code c =? 32))%N.

(** The white-space runes of [unicode.IsSpace], as UTF-8 byte sequences:
    the six ASCII ones, U+0085, U+00A0, U+1680, U+2000 to U+200A, U+2028,
    U+2029, U+202F, U+205F and U+3000. *)
Definition bytes (l : list N) : str := map ascii_of_N l.

Definition spaceRunes : list str :=
  map bytes
    [ [0x09]; [0x0a]; [0x0b]; [0x0c]; [0x0d]; [0x20];
      [0xc2; 0x85]; [0xc2; 0xa0]; [0xe1; 0x9a; 0x80];
      [0xe2; 0x80; 0x80]; [0xe2; 0x80; 0x81]; [0xe2; 0x80; 0x82];
      [0xe2; 0x80; 0x83]; [0xe2; 0x80; 0x84]; [0xe2; 0x80; 0x85];
      [0xe2; 0x80; 0x86]; [0xe2; 0x80; 0x87]; [0xe2; 0x80; 0x88];
      [0xe2; 0x80; 0x89]; [0xe2; 0x80; 0x8a]; [0xe2; 0x80; 0xa8];
      [0xe2; 0x80; 0xa9]; [0xe2; 0x80; 0xaf]; [0xe2; 0x81; 0x9f];
      [0xe3; 0x80; 0x80] ]%N.

(** Width in bytes of the white-space rune that [s] starts with (resp. ends
    with), or 0 when the first (resp. last) rune of [s] is not white space. *)
Definition leadingSpace (s : str) : nat :=
  match List.find (HasPrefix s) spaceRunes with
  | Some p => length p
  | None => 0
  end.

Definition trailingSpace (s : str) : nat :=
  match List.find (HasSuffix s) spaceRunes with
  | Some p => length p
  | None => 0
  end.

Fixpoint trimLeftLoop (fuel : nat) (s : str) : str :=
  match fuel with
  | 0 => s
  | S k =>
      match leadingSpace s with
      | 0 => s
      | n => trimLeftLoop k (skipn n s)
      end
  end.

Fixpoint trimRightLoop (fuel : nat) (s : str) : str :=
  match fuel with
  | 0 => s
  | S k =>
      match trailingSpace s with
      | 0 => s
      | n => trimRightLoop k (firstn (length s - n) s)
      end
  end.

(** Each round removes at least one byte, so [length s] rounds suffice. *)
Definition TrimLeftSpace (s : str) : str := trimLeftLoop (length s) s.
Definition TrimRightSpace (s : str) : str := trimRightLoop (length s) s.

Definition TrimSpace (s : str) : str := TrimRightSpace (TrimLeftSpace s).

(** The rune-wise slow paths of [strings.ToLower] and [strings.EqualFold],
    which consult the Unicode case tables.  They are only reached on strings
    that contain a byte of 0x80 or more. *)
Class Unicode := {
  unicodeToLower : str -> str;
  unicodeEqualFold : str -> str -> bool
}.

(** An instance for evaluating the functions on ASCII inputs, where the slow
    paths are never entered. *)
Definition asciiOnly : Unicode :=
  {| unicodeToLower := fun s => s; unicodeEqualFold := fun _ _ => false |}.

Section CaseFolding.
Context {U : Unicode}.

Definition ToLower (s : str) : str :=
  if forallb isASCII s then map lowerByte s else unicodeToLower s.

Fixpoint EqualFold (s t : str) : bool :=
  match s, t with
  | [], [] => true
  | [], _ :: _ | _ :: _, [] => false
  | a :: s', b :: t' =>
      if negb (isASCII a && isASCII b) then unicodeEqualFold s t
      else if Ascii.eqb (lowerByte a) (lowerByte b) then EqualFold s' t'
      else false
  end.
End CaseFolding.

(** [strconv.Itoa] on a non-negative number. *)
Definition Itoa (n : nat) : str :=
  list_ascii_of_string (NilEmpty.string_of_uint (Nat.to_uint n)).

(** *** Package [bufio]: a [Scanner] with the default [ScanLines] split *)

Definition MaxScanTokenSize : N := 65536.

Definition dropCR (data : str) : str :=
  if HasSuffix data [CR] then removelast data else data.

Fixpoint dropFinalEmpty (toks : list str) : list str :=
  match toks with
  | [] => []
  | [ [] ] => []
  | t :: rest => t :: dropFinalEmpty rest
  end.

(** A line of [MaxScanTokenSize] bytes or more does not fit the buffer:
    [Scan] reports [ErrTooLong] and returns false there and ever after. *)
Fixpoint scanTokens (toks : list str) : list str :=
  match toks with
  | [] => []
  | t :: rest =>
      if (N.of_nat (length t) <? MaxScanTokenSize)%N
      then dropCR t :: scanTokens rest
      else []
  end.

Definition scanLines (content : str) : list str :=
  scanTokens (dropFinalEmpty (Split content LF)).

(** *** Package [regexp]: the patterns of the program

    [\w] is [[0-9A-Za-z_]] and [\s] is [[\t\n\f\r ]] (ASCII only); [.]
    is any byte but a line feed; a negated class also matches a line feed.
    Matching is leftmost-first. *)

Definition isWordByte (c : ascii) : bool :=
  isDigit c || isUpper c || isLower c || Ascii.eqb c "_".

Definition isReSpace (c : ascii) : bool :=
  let n := code c in ((n =? 9) || (n =? 10) || (n =? 12) || (n =? 13) || (n =? 32))%N.

Fixpoint takeWhile (p : ascii -> bool) (s : str) : str :=
  match s with
  | c :: r => if p c then c :: takeWhile p r else []
  | [] => []
  end.

Fixpoint dropWhile (p : ascii -> bool) (s : str) : str :=
  match s with
  | c :: r => if p c then dropWhile p r else s
  | [] => []
  end.

(** [FindStringSubmatch] for the pattern  ^ ( \w+ ) : \s* ( .* ) $  : the
    two groups, or [None] when there is no match.  The greedy [\w+] must be
    followed by the colon, and what follows the greedy [\s*] must be free of
    line feeds up to the end of the text. *)
Definition matchFieldLine (s : str) : option (str * str) :=
  match takeWhile isWordByte s, dropWhile isWordByte s with
  | (_ :: _) as field, c :: r =>
      if Ascii.eqb c ":" then
        let value := dropWhile isReSpace r in
        if existsb (Ascii.eqb LF) value then None else Some (field, value)
      else None
  | _, _ => None
  end.

Definition notBrace (c : ascii) : bool := negb (Ascii.eqb c "}").

(** [FindStringSubmatch] for the pattern  cmd ( [^}]* ) $  with a literal
    [cmd] such as [\ref{]: group 1 of the leftmost match, that is,
    what follows the leftmost [cmd] after which no closing brace occurs. *)
Fixpoint findOpenArg (cmd : str) (s : str) : option str :=
  if HasPrefix s cmd && forallb notBrace (skipn (length cmd) s)
  then Some (skipn (length cmd) s)
  else match s with
       | [] => None
       | _ :: s' => findOpenArg cmd s'
       end.

(** One match of  (?: cmd1 | cmd2 | ... ) ( [^}]+ ) \}  at the start of
    [s]: the offsets at which group 1 starts and ends. *)
Definition matchBracedAt (cmds : list str) (s : str) : option (nat * nat) :=
  match List.find (HasPrefix s) cmds with
  | None => None
  | Some cmd =>
      let rest := skipn (length cmd) s in
      let arg := takeWhile notBrace rest in
      match arg, skipn (length arg) rest with
      | _ :: _, _ :: _ => Some (length cmd, length cmd + length arg)
      | _, _ => None
      end
  end.

(** The index quadruple of [FindAllStringSubmatchIndex]: where the match
    and its group start and end. *)
Record Match := {
  matchStart : nat; groupStart : nat; groupEnd : nat; matchEnd : nat
}.

(** All successive, non-overlapping matches from left to right; [skip]
    counts the bytes of the previous match that are still to be passed. *)
Fixpoint findAllFrom (cmds : list str) (skip pos : nat) (s : str) : list Match :=
  match s with
  | [] => []
  | _ :: s' =>
      match skip with
      | S k => findAllFrom cmds k (S pos) s'
      | 0 =>
          match matchBracedAt cmds s with
          | Some (a, b) =>
              {| matchStart := pos; groupStart := pos + a;
                 groupEnd := pos + b; matchEnd := pos + b + 1 |}
                :: findAllFrom cmds b (S pos) s'
          | None => findAllFrom cmds 0 (S pos) s'
          end
      end
  end.

Definition FindAllStringSubmatchIndex (cmds : list str) (s : str) : list Match :=
  findAllFrom cmds 0 0 s.

(** [s[i:j]] for [i <= j <= len(s)]. *)
Definition slice (s : str) (i j : nat) : str := firstn (j - i) (skipn i s).

(** *** Package [time]: [time.Parse("2006-01-02", s)] succeeds *)

Definition digitVal (c : ascii) : nat := N.to_nat (code c - 48).

Definition isLeap (year : nat) : bool :=
  ((year mod 4 =? 0) && (negb (year mod 100 =? 0) || (year mod 400 =? 0)))%nat.

Definition daysIn (month year : nat) : nat :=
  match month with
  | 2 => if isLeap year then 29 else 28
  | 4 | 6 | 9 | 11 => 30
  | _ => 31
  end.

Definition parsesAsDate (s : str) : bool :=
  match s with
  | [y1; y2; y3; y4; h1; m1; m2; h2; d1; d2] =>
      let year := 1000 * digitVal y1 + 100 * digitVal y2 + 10 * digitVal y3 + digitVal y4 in
      let month := 10 * digitVal m1 + digitVal m2 in
      let day := 10 * digitVal d1 + digitVal d2 in
      forallb isDigit [y1; y2; y3; y4; m1; m2; d1; d2]
      && Ascii.eqb h1 "-" && Ascii.eqb h2 "-"
      && (1 <=? month)%nat && (month <=? 12)%nat
      && (1 <=? day)%nat && (day <=? daysIn month year)%nat
  | _ => false
  end.

(** ** Package [metadata] ([pkg/metadata/parser.go]) *)

Module metadata.

Record Metadata := {
  Title : str;
  Date : str;
  Tags : list str
}.

Record ParseError := {
  Line : nat;
  Field : str;
  Message : str
}.

Record ParseResult := {
  Meta : Metadata;
  Errors : list ParseError;
  Warnings : list str
}.

(** [ParseError.Error]: [fmt.Sprintf("line %d (%s): %s", ...)]. *)
Definition ParseError_Error (e : ParseError) : str :=
  "line " ++ Itoa (Line e) ++ " (" ++ Field e ++ "): " ++ Message e.

Definition setTitle (v : str) (r : ParseResult) : ParseResult :=
  {| Meta := {| Title := v; Date := Date (Meta r); Tags := Tags (Meta r) |};
     Errors := Errors r; Warnings := Warnings r |}.

Definition setDate (v : str) (r : ParseResult) : ParseResult :=
  {| Meta := {| Title := Title (Meta r); Date := v; Tags := Tags (Meta r) |};
     Errors := Errors r; Warnings := Warnings r |}.

Definition addTags (ts : list str) (r : ParseResult) : ParseResult :=
  {| Meta := {| Title := Title (Meta r); Date := Date (Meta r);
                Tags := Tags (Meta r) ++ ts |};
     Errors := Errors r; Warnings := Warnings r |}.

Definition addError (e : ParseError) (r : ParseResult) : ParseResult :=
  {| Meta := Meta r; Errors := Errors r ++ [e]; Warnings := Warnings r |}.

Definition addWarning (w : str) (r : ParseResult) : ParseResult :=
  {| Meta := Meta r; Errors := Errors r; Warnings := Warnings r ++ [w] |}.

Definition emptyResult : ParseResult :=
  {| Meta := {| Title := []; Date := []; Tags := [] |};
     Errors := []; Warnings := [] |}.

(** The loop [for strings.HasPrefix(s, "%") { s = TrimPrefix(s, "%");
    s = TrimSpace(s) }]; each round removes a byte. *)
Fixpoint stripPercentLoop (fuel : nat) (s : str) : str :=
  match fuel with
  | 0 => s
  | S k =>
      if HasPrefix s "%" then stripPercentLoop k (TrimSpace (TrimPrefix s "%"))
      else s
  end.

Definition stripPercent (s : str) : str := stripPercentLoop (length s) s.

(** [validateDate]: [None] is the nil error. *)
Definition validateDate (date : str) : option str :=
  if isEmpty date then None
  else if parsesAsDate date then None
  else Some ("invalid date format (expected YYYY-MM-DD): " ++ date).

Definition validateMetadata (m : Metadata) : option str :=
  if isEmpty (Title m) then Some ("required field 'title' is missing" : str)
  else None.

Section Parser.
Context {U : Unicode}.

(** The loop of [extractMetadataBlock] from line [i] on. *)
Fixpoint extractLoop (i : nat) (lines : list str) (inMetadata : bool)
    (startLine : nat) (metadataLines : list str) : list str * nat :=
  match lines with
  | [] => (metadataLines, startLine)
  | line :: rest =>
      let trimmed := TrimSpace line in
      let stripped := stripPercent trimmed in
      if negb inMetadata
         && (EqualFold stripped "Metadata"
             || HasPrefix (ToLower stripped) "metadata")
      then extractLoop (S i) rest true i (metadataLines ++ [line])
      else if inMetadata then
        if negb (HasPrefix trimmed "%") then (metadataLines, startLine)
        else extractLoop (S i) rest inMetadata startLine (metadataLines ++ [line])
      else extractLoop (S i) rest inMetadata startLine metadataLines
  end.

Definition extractMetadataBlock (content : str) : str * nat * bool :=
  let '(metadataLines, startLine) :=
    extractLoop 0 (Split content LF) false 0 [] in
  match metadataLines with
  | [] => ([], 0, false)
  | _ :: _ => (Join metadataLines [LF], startLine, true)
  end.

(** The tags of one [tags:] value: split at commas, trimmed, blanks
    dropped. *)
Definition splitTags (value : str) : list str :=
  if isEmpty value then []
  else List.filter (fun t => negb (isEmpty t)) (map TrimSpace (Split value ",")).

(** [parseMetadataLine]: the updated result and the returned error. *)
Definition parseMetadataLine (strict : bool) (line : str) (lineNum : nat)
    (result : ParseResult) : ParseResult * option str :=
  let trimmed := stripPercent (TrimSpace line) in
  match matchFieldLine trimmed with
  | None =>
      let err := {| Line := lineNum; Field := "format";
                    Message := "invalid metadata line format: " ++ line |} in
      (addWarning (ParseError_Error err) result, None)
  | Some (m1, m2) =>
      let field := ToLower (TrimSpace m1) in
      let value := TrimSpace m2 in
      if strEq field "title" then
        if negb (isEmpty (Title (Meta result))) then
          (addWarning ("line " ++ Itoa lineNum
                       ++ ": duplicate title field, using first occurrence") result,
           None)
        else if isEmpty value then
          (addError {| Line := lineNum; Field := "title";
                       Message := "title cannot be empty" |} result,
           Some ("title cannot be empty" : str))
        else (setTitle value result, None)
      else if strEq field "date" then
        if negb (isEmpty (Date (Meta result))) then
          (addWarning ("line " ++ Itoa lineNum
                       ++ ": duplicate date field, using first occurrence") result,
           None)
        else
          match validateDate value with
          | Some err =>
              (setDate value
                 (addError {| Line := lineNum; Field := "date"; Message := err |}
                    result),
               if strict then Some err else None)
          | None => (setDate value result, None)
          end
      else if strEq field "tags" then
        let result1 :=
          if negb (isEmpty (Tags (Meta result)))
          then addWarning ("line " ++ Itoa lineNum
                           ++ ": duplicate tags field, merging values") result
          else result in
        (addTags (splitTags value) result1, None)
      else
        (addWarning ("line " ++ Itoa lineNum ++ ": unknown metadata field '"
                     ++ field ++ "', ignoring") result,
         None)
  end.

(** The tag loop of [normalizeMetadata]; [seen] holds the keys of
    [tagSet]. *)
Fixpoint uniqueTags (seen : list str) (tags : list str) : list str :=
  match tags with
  | [] => []
  | tag :: rest =>
      let normalized := TrimSpace (ToLower tag) in
      if negb (isEmpty normalized) && negb (bool_decide (normalized ∈ seen))
      then tag :: uniqueTags (normalized :: seen) rest
      else uniqueTags seen rest
  end.

Definition normalizeMetadata (m : Metadata) : Metadata :=
  {| Title := TrimSpace (Title m);
     Date := if isEmpty (Date m) then Date m else TrimSpace (Date m);
     Tags := uniqueTags [] (Tags m) |}.

(** The scanning loop of [Parse]; an error is returned to abort. *)
Fixpoint parseLoop (strict : bool) (lines : list str) (lineNum : nat)
    (result : ParseResult) : ParseResult * option str :=
  match lines with
  | [] => (result, None)
  | line :: rest =>
      let lineNum := S lineNum in
      let trimmed := TrimSpace line in
      if isEmpty trimmed || HasPrefix trimmed "%% Metadata"
         || HasPrefix trimmed "% Metadata"
      then parseLoop strict rest lineNum result
      else
        match parseMetadataLine strict line lineNum result with
        | (result', Some err) =>
            if strict then (result', Some err)
            else parseLoop strict rest lineNum result'
        | (result', None) => parseLoop strict rest lineNum result'
        end
  end.

Definition withMeta (m : Metadata) (r : ParseResult) : ParseResult :=
  {| Meta := m; Errors := Errors r; Warnings := Warnings r |}.

Definition Parse (strict : bool) (content : str) : ParseResult * option str :=
  let '(metadataBlock, blockStart, found) := extractMetadataBlock content in
  if negb found then
    let result :=
      addError {| Line := 0; Field := "metadata";
                  Message := "no metadata block found" |} emptyResult in
    (result, if strict then Some ("no metadata block found" : str) else None)
  else
    match parseLoop strict (scanLines metadataBlock) blockStart emptyResult with
    | (result, Some err) => (result, Some err)
    | (result, None) =>
        match validateMetadata (Meta result) with
        | Some err =>
            let result' :=
              addError {| Line := 0; Field := "validation"; Message := err |}
                result in
            if strict then (result', Some err)
            else (withMeta (normalizeMetadata (Meta result')) result', None)
        | None => (withMeta (normalizeMetadata (Meta result)) result, None)
        end
    end.

(** [Extract] and [ExtractStrict]: the metadata, or the error. *)
Definition Extract (content : str) : Metadata + str :=
  match Parse false content with
  | (_, Some err) => inr err
  | (result, None) => inl (Meta result)
  end.

Definition ExtractStrict (content : str) : Metadata + str :=
  match Parse true content with
  | (_, Some err) => inr err
  | (result, None) => inl (Meta result)
  end.

(** [Format]; [today] is [time.Now().Format("2006-01-02")]. *)
Definition Format (today : str) (m : Metadata) : str :=
  "%% Metadata" ++ [LF]
  ++ ("%% title: " ++ Title m ++ [LF])
  ++ ("%% date: " ++ (if isEmpty (Date m) then today else Date m) ++ [LF])
  ++ (if isEmpty (Tags m) then "%% tags: " ++ [LF]
      else "%% tags: " ++ Join (Tags m) ", " ++ [LF]).

(** The loop of [Update] that looks for the end of the block. *)
Fixpoint findBlockEnd (blockStart i : nat) (lines : list str)
    (blockEnd : nat) (inBlock : bool) : nat :=
  match lines with
  | [] => blockEnd
  | line :: rest =>
      if (i <? blockStart)%nat then findBlockEnd blockStart (S i) rest blockEnd inBlock
      else
        let trimmed := TrimSpace line in
        if HasPrefix trimmed "%% Metadata" || HasPrefix trimmed "% Metadata"
        then findBlockEnd blockStart (S i) rest blockEnd true
        else if inBlock && negb (HasPrefix trimmed "%") then i
        else if inBlock && HasPrefix trimmed "%"
        then findBlockEnd blockStart (S i) rest (S i) inBlock
        else findBlockEnd blockStart (S i) rest blockEnd inBlock
  end.

(** The loop of [Update] that writes [lines[i:]], where [len] is
    [len(lines)] and [lines] holds the lines from index [i] on. *)
Fixpoint writeAfter (blockEnd len i : nat) (lines : list str) : str :=
  match lines with
  | [] => []
  | line :: rest =>
      (if (i =? blockEnd)%nat && isEmpty (TrimSpace line) then []
       else line ++ (if (i <? len - 1)%nat then [LF] else []))
      ++ writeAfter blockEnd len (S i) rest
  end.

Definition Update (today : str) (content : str) (m : Metadata) : str :=
  let '(_, blockStart, found) := extractMetadataBlock content in
  let newMetadata := Format today m in
  if negb found then newMetadata ++ [LF] ++ content
  else
    let lines := Split content LF in
    let blockEnd := findBlockEnd blockStart 0 lines blockStart false in
    concat (map (fun l => l ++ [LF]) (firstn blockStart lines))
    ++ newMetadata
    ++ writeAfter blockEnd (length lines) blockEnd (skipn blockEnd lines).
End Parser.

End metadata.

(** ** Package [path/filepath] (Unix) *)

Definition isSlash (c : ascii) : bool := Ascii.eqb c "/".

(** [filepath.Base]: the last element of the path. *)
Definition Base (path : str) : str :=
  if isEmpty path then "."
  else
    let stripped := rev (dropWhile isSlash (rev path)) in
    let last := rev (takeWhile (fun c => negb (isSlash c)) (rev stripped)) in
    if isEmpty last then "/" else last.

(** ** Package [server] ([server/server.go], [server/handlers.go]) *)

Module server.

Record NoteHeader := {
  Title : str;
  Date : str;
  Tags : list str;
  Slug : str;
  Filename : str
}.

(** The note index: a map from slug to header.  The lock of the Go
    structure makes each operation atomic; one operation at a time is
    modelled here. *)
Abbreviation Index := (gmap str NoteHeader).

Definition NewIndex : Index := ∅.

Definition Index_Get (i : Index) (slug : str) : option NoteHeader := i !! slug.

Definition Index_Set (i : Index) (slug : str) (header : NoteHeader) : Index :=
  <[slug := header]> i.

Definition Index_Delete (i : Index) (slug : str) : Index := delete slug i.

Definition Index_Count (i : Index) : nat := size i.

(** Go iterates over a map in an unspecified order; [map_to_list] fixes
    one.  Statements about [Index_All] are made up to the order. *)
Definition Index_All (i : Index) : list NoteHeader := (map_to_list i).*2.

(** The vault collaborator. *)
Record Vault := {
  NotesPath : str;
  TemplatesPath : str;
  GetNotePath : str -> str
}.

Record DirEntry := {
  Name : str;
  IsDir : bool
}.

(** The file system as the server observes it: whether [os.Stat] fails
    with an error for which [os.IsNotExist] holds, and the results of
    [os.ReadFile], [os.ReadDir] and [filepath.Abs] ([None] is an error). *)
Record FileSystem := {
  statNotExist : str -> bool;
  ReadFile : str -> option str;
  ReadDir : str -> option (list DirEntry);
  Abs : str -> option str
}.

(** [parseFilenameToSlug]. *)
Definition parseFilenameToSlug (filename : str) : str :=
  let name := TrimSuffix filename ".tex" in
  match SplitN name "-" 2 with
  | [part0; part1] =>
      if (length part0 =? 8)%nat && forallb isDigit part0 then part1 else name
  | _ => name
  end.

(** [uriToPath]; [None] is the run-time panic of the slice expression
    [path[7:]] on a string of fewer than seven bytes. *)
Definition uriToPath (uri : str) : option str :=
  if negb (isEmpty (TrimPrefix uri "file://")) then
    if (7 <=? length uri)%nat then Some (skipn 7 uri) else None
  else Some uri.

Inductive DiagnosticSeverity := SeverityError | SeverityWarning.

Record Position := {
  PosLine : N;
  PosCharacter : N
}.

Record Range := {
  RangeStart : Position;
  RangeEnd : Position
}.

Record Diagnostic := {
  DiagRange : Range;
  Severity : DiagnosticSeverity;
  Message : str;
  Source : str
}.

(** The conversion [uint32(n)] of a non-negative [int]. *)
Definition uint32 (n : nat) : N := (N.of_nat n mod 2 ^ 32)%N.

(** The range from byte [start] to byte [stop] of line [lineNum]. *)
Definition mkRange (lineNum start stop : nat) : Range :=
  {| RangeStart := {| PosLine := uint32 lineNum; PosCharacter := uint32 start |};
     RangeEnd := {| PosLine := uint32 lineNum; PosCharacter := uint32 stop |} |}.

Inductive CompletionItemKind := KindReference | KindModule | KindSnippet.

Record CompletionItem := {
  Label : str;
  Kind : CompletionItemKind;
  Detail : str;
  InsertText : str
}.

Record CompletionList := {
  IsIncomplete : bool;
  Items : list CompletionItem
}.

(** The completion item that [getRefCompletions] builds for a note. *)
Definition referenceItem (note : NoteHeader) : CompletionItem :=
  {| Label := Slug note; Kind := KindReference;
     Detail := Title note; InsertText := Slug note |}.

Definition getSnippetCompletions : list CompletionItem :=
  [ {| Label := "\todo{}"; Kind := KindSnippet; Detail := "TODO marker";
       InsertText := "\todo{${1:description}}" |};
    {| Label := "\includegraphics"; Kind := KindSnippet; Detail := "Include asset";
       InsertText := "\includegraphics[width=0.8\linewidth]{${1:filename}}" |} ].

Record Location := {
  LocationURI : str;
  LocationRange : Range
}.

Inductive MarkupKind := PlainText | Markdown.

Record MarkupContent := {
  ContentKind : MarkupKind;
  Value : str
}.

(** [protocol.Hover]. *)
Record HoverReply := {
  Contents : MarkupContent
}.

Section Server.
Context {U : Unicode}.
Variable vault : Vault.
Variable fs : FileSystem.
(** [GetDocument] is not part of the sources at hand: the text of the
    document of a URI, or [None] for its error. *)
Variable GetDocument : str -> option str.

(** [parseNoteHeader]; [None] is the error return. *)
Definition parseNoteHeader (filename : str) : option NoteHeader :=
  match ReadFile fs (GetNotePath vault filename) with
  | None => None
  | Some content =>
      match metadata.Extract content with
      | inr _ =>
          let slug := parseFilenameToSlug filename in
          Some {| Filename := filename; Slug := slug; Title := slug;
                  Date := []; Tags := [] |}
      | inl meta =>
          let slug := parseFilenameToSlug filename in
          Some {| Filename := filename; Slug := slug;
                  Title := if isEmpty (metadata.Title meta) then slug
                           else metadata.Title meta;
                  Date := metadata.Date meta;
                  Tags := metadata.Tags meta |}
      end
  end.

(** [updateIndexForFile]. *)
Definition updateIndexForFile (path : str) (index : Index) : Index :=
  if statNotExist fs path then
    Index_Delete index (parseFilenameToSlug (Base path))
  else
    match parseNoteHeader (Base path) with
    | Some header => Index_Set index (Slug header) header
    | None => index
    end.

(** [IsManaged]; [None] when [uriToPath] panics. *)
Definition IsManaged (uri : str) : option bool :=
  match uriToPath uri with
  | None => None
  | Some path =>
      Some
        (if isEmpty path then false
         else
           match Abs fs (NotesPath vault) with
           | None => false
           | Some notesPath =>
               match Abs fs path with
               | None => false
               | Some absPath =>
                   if negb (HasSuffix absPath ".tex") then false
                   else HasPrefix absPath notesPath
               end
           end)
  end.

Definition getRefCompletions (index : Index) : list CompletionItem :=
  map referenceItem (Index_All index).

Definition listTemplates : option (list str) :=
  match ReadDir fs (TemplatesPath vault) with
  | None => None
  | Some entries =>
      Some (map (fun e => TrimSuffix (Name e) ".sty")
              (List.filter (fun e => negb (IsDir e || negb (HasSuffix (Name e) ".sty")))
                 entries))
  end.

Definition getTemplateCompletions : list CompletionItem :=
  match listTemplates with
  | None => []
  | Some templates =>
      map (fun tmpl => {| Label := tmpl; Kind := KindModule; Detail := [];
                          InsertText := tmpl |}) templates
  end.

Definition filterByPrefix (prefix : str) (items : list CompletionItem) :
    list CompletionItem :=
  List.filter (fun item => HasPrefix (Label item) prefix) items.

(** The part of [Completion] that follows the computation of
    [linePrefix]. *)
Definition completeLinePrefix (index : Index) (linePrefix : str) :
    list CompletionItem :=
  let items :=
    match findOpenArg "\ref{" linePrefix with
    | Some prefix =>
        let items := getRefCompletions index in
        if negb (isEmpty prefix) then filterByPrefix prefix items else items
    | None => []
    end in
  let items :=
    match findOpenArg "\usepackage{" linePrefix with
    | Some prefix =>
        let templateItems := getTemplateCompletions in
        if negb (isEmpty prefix) then items ++ filterByPrefix prefix templateItems
        else items ++ templateItems
    | None => items
    end in
  if isEmpty items then items ++ getSnippetCompletions else items.

Definition emptyList : CompletionList := {| IsIncomplete := false; Items := [] |}.

(** [Completion] for a request at [line], [character] of the document
    [uri]; [None] when [IsManaged] panics. *)
Definition Completion (index : Index) (uri : str) (line character : N) :
    option CompletionList :=
  match IsManaged uri with
  | None => None
  | Some false => Some emptyList
  | Some true =>
      match GetDocument uri with
      | None => Some emptyList
      | Some content =>
          let lines := Split content LF in
          match nth_error lines (N.to_nat line) with
          | None => Some emptyList
          | Some text =>
              if (length text <? N.to_nat character)%nat then Some emptyList
              else
                Some {| IsIncomplete := false;
                        Items := completeLinePrefix index
                                   (firstn (N.to_nat character) text) |}
          end
      end
  end.

(** The error diagnostics of one line of [analyzeDiagnostics]. *)
Definition refDiagnostics (index : Index) (lineNum : nat) (line : str) :
    list Diagnostic :=
  flat_map
    (fun m =>
       let rawSlug := slice line (groupStart m) (groupEnd m) in
       let slug := TrimSuffix (TrimSpace rawSlug) ".tex" in
       match Index_Get index slug with
       | Some _ => []
       | None =>
           [ {| DiagRange := mkRange lineNum (groupStart m) (groupEnd m);
                Severity := SeverityError;
                Message := "Note '" ++ slug ++ "' not found";
                Source := "lx-ls" |} ]
       end)
    (FindAllStringSubmatchIndex ["\ref{" : str; "\cite{" : str] line).

(** The warning diagnostics of one line of [analyzeDiagnostics]. *)
Definition todoDiagnostics (lineNum : nat) (line : str) : list Diagnostic :=
  map
    (fun m =>
       {| DiagRange := mkRange lineNum (matchStart m) (matchEnd m);
          Severity := SeverityWarning;
          Message := "TODO: " ++ slice line (groupStart m) (groupEnd m);
          Source := "lx-ls" |})
    (FindAllStringSubmatchIndex ["\todo{" : str] line).

Definition isCommentLine (line : str) : bool := HasPrefix (TrimSpace line) "%".

(** What one iteration of the loop of [analyzeDiagnostics] appends. *)
Definition lineDiagnostics (index : Index) (lineNum : nat) (line : str) :
    list Diagnostic :=
  if isCommentLine line then []
  else refDiagnostics index lineNum line ++ todoDiagnostics lineNum line.

Fixpoint analyzeLines (index : Index) (lineNum : nat) (lines : list str) :
    list Diagnostic :=
  match lines with
  | [] => []
  | line :: rest =>
      lineDiagnostics index lineNum line ++ analyzeLines index (S lineNum) rest
  end.

Definition analyzeDiagnostics (index : Index) (content : str) : list Diagnostic :=
  analyzeLines index 0 (Split content LF).

(** [listNoteHeaders]; [None] is the error return. *)
Definition listNoteHeaders : option (list NoteHeader) :=
  match ReadDir fs (NotesPath vault) with
  | None => None
  | Some entries =>
      Some (omap (fun entry =>
                    if IsDir entry || negb (HasSuffix (Name entry) ".tex") then None
                    else parseNoteHeader (Name entry))
              entries)
  end.

(** [RebuildIndex]: the index afterwards, and whether an error is
    returned. *)
Definition RebuildIndex (index : Index) : Index * bool :=
  match listNoteHeaders with
  | None => (index, true)
  | Some headers =>
      (fold_left (fun i header => Index_Set i (Slug header) header) headers index,
       false)
  end.

(** The loop of [handleFileEvents] over the events that the watcher
    delivers, each with the name of its file. *)
Definition handleFileEvents (events : list str) (index : Index) : Index :=
  fold_left
    (fun i name => if HasSuffix name ".tex" then updateIndexForFile name i else i)
    events index.

(** [getSlugAtPosition]. *)
Definition getSlugAtPosition (content : str) (pos : Position) : str :=
  let lines := Split content LF in
  match nth_error lines (N.to_nat (PosLine pos)) with
  | None => []
  | Some line =>
      let matches :=
        FindAllStringSubmatchIndex
          ["\ref{" : str; "\cite{" : str; "\input{" : str; "\include{" : str]
          line in
      match List.find
              (fun m => (groupStart m <=? N.to_nat (PosCharacter pos))%nat
                        && (N.to_nat (PosCharacter pos) <=? groupEnd m)%nat)
              matches with
      | Some m =>
          let rawSlug := slice line (groupStart m) (groupEnd m) in
          TrimPrefix (TrimSuffix (TrimSpace rawSlug) ".tex") "../notes/"
      | None => []
      end
  end.

(** [Definition]; the empty list stands for nil, [None] for the panic of
    [IsManaged]. *)
Definition Definition_ (index : Index) (uri : str) (pos : Position) :
    option (list Location) :=
  match IsManaged uri with
  | None => None
  | Some false => Some []
  | Some true =>
      match GetDocument uri with
      | None => Some []
      | Some content =>
          let slug := getSlugAtPosition content pos in
          if isEmpty slug then Some []
          else
            match Index_Get index slug with
            | None => Some []
            | Some note =>
                let notePath := GetNotePath vault (Filename note) in
                Some [ {| LocationURI := "file://" ++ notePath;
                          LocationRange :=
                            {| RangeStart := {| PosLine := 0; PosCharacter := 0 |};
                               RangeEnd := {| PosLine := 0; PosCharacter := 0 |} |} |} ]
            end
      end
  end.

(** [Hover]; [Some None] is the nil answer, [None] the panic of
    [IsManaged]. *)
Definition Hover (index : Index) (uri : str) (pos : Position) :
    option (option HoverReply) :=
  match IsManaged uri with
  | None => None
  | Some false => Some None
  | Some true =>
      match GetDocument uri with
      | None => Some None
      | Some content =>
          let slug := getSlugAtPosition content pos in
          if isEmpty slug then Some None
          else
            match Index_Get index slug with
            | None => Some None
            | Some note =>
                let hoverText :=
                  "**" ++ Title note ++ "**" ++ [LF; LF]
                  ++ "Slug: `" ++ Slug note ++ "`" ++ [LF]
                  ++ "Date: " ++ Date note in
                let hoverText :=
                  if negb (isEmpty (Tags note))
                  then hoverText ++ [LF] ++ "Tags: " ++ Join (Tags note) ", "
                  else hoverText in
                Some (Some {| Contents := {| ContentKind := Markdown;
                                             Value := hoverText |} |})
            end
      end
  end.
End Server.

End server.

(** ** Vocabulary of the specification *)

(** Every command of [cmds] that starts inside [pre] is followed by a
    closing brace inside [pre]: what comes after [pre] lies in the argument
    of none of them. *)
Definition closedBefore (cmds : list str) (pre : str) : Prop :=
  forall a cmd b : str, cmd ∈ cmds -> pre = a ++ cmd ++ b -> "}"%char ∈ b.

(** [p] is the open argument of [cmd] in [text]: what follows the leftmost
    [cmd] of [text] after which no closing brace occurs. *)
Definition openSpan (cmd text p : str) : Prop :=
  exists pre : str,
    text = pre ++ cmd ++ p /\ ("}"%char ∉ p)
    /\ forall pre' p' : str,
         text = pre' ++ cmd ++ p' -> "}"%char ∉ p' -> length pre <= length pre'.

(** [text] holds no open argument of [cmd]: a closing brace follows every
    [cmd] in it. *)
Definition noOpenSpan (cmd text : str) : Prop :=
  forall pre p : str, text = pre ++ cmd ++ p -> "}"%char ∈ p.

(** A value that a header line carries verbatim: it is not empty, has no
    white space around it and holds no line feed. *)
Definition fieldValue (v : str) : Prop :=
  v <> [] /\ TrimSpace v = v /\ LF ∉ v.

(** A tag that the comma-separated list carries verbatim. *)
Definition tagValue (t : str) : Prop :=
  fieldValue t /\ ","%char ∉ t.

(** A line that fits the buffer of the scanner. *)
Definition fitsScanner (line : str) : Prop :=
  (N.of_nat (length line) < MaxScanTokenSize)%N.

(** The valid headers as the round-trip law names them: a title that is not
    empty, a date that is not empty and well formed, any tags. *)
Definition validHeader (h : metadata.Metadata) : Prop :=
  metadata.Title h <> [] /\ metadata.Date h <> []
  /\ parsesAsDate (metadata.Date h) = true.

(** The headers that [Format] writes without loss: the title and the tags
    are values that a line carries verbatim, the date is well formed, and the
    title and tag lines fit the scanner. *)
Definition canonicalHeader (h : metadata.Metadata) : Prop :=
  fieldValue (metadata.Title h)
  /\ parsesAsDate (metadata.Date h) = true
  /\ Forall tagValue (metadata.Tags h)
  /\ fitsScanner ("%% title: " ++ metadata.Title h)
  /\ fitsScanner ("%% tags: " ++ Join (metadata.Tags h) ", ").

(** The key under which [normalizeMetadata] compares tags. *)
Definition tagKey {U : Unicode} (tag : str) : str := TrimSpace (ToLower tag).

(** The [i]-th of [tags] is first seen there, the keys in [seen] counting
    as seen before: its key is not blank, is not in [seen], and is the key of
    none of the tags before it. *)
Definition firstSeenAfter (key : str -> str) (seen : list str)
    (tags : list str) (i : nat) : bool :=
  match tags !! i with
  | Some tag =>
      negb (isEmpty (key tag))
      && negb (bool_decide (key tag ∈ seen ++ map key (take i tags)))
  | None => false
  end.

Definition firstSeen (key : str -> str) (tags : list str) (i : nat) : bool :=
  firstSeenAfter key [] tags i.

(** The completion items of the indexed notes whose slug starts with [p],
    in the order in which the index lists its notes. *)
Definition slugItems (index : server.Index) (p : str) : list server.CompletionItem :=
  map server.referenceItem
    (List.filter (fun note => HasPrefix (server.Slug note) p)
       (server.Index_All index)).

(** ** Sample collaborators, after the fixtures of the test suite *)

Module sample.
Import server.

Definition vault : Vault :=
  {| NotesPath := "/vault/notes";
     TemplatesPath := "/vault/templates";
     GetNotePath := fun filename => "/vault/notes/" ++ filename |}.

(** A file system that holds one note and one template. *)
Definition fs : FileSystem :=
  {| statNotExist := fun path =>
       negb (strEq path "/vault/notes/20240101-graph-theory.tex");
     ReadFile := fun path =>
       if strEq path "/vault/notes/20240101-graph-theory.tex"
       then Some ("%% Metadata" ++ [LF] ++ "%% title: Graph Theory" ++ [LF]
                  ++ "%% date: 2024-01-01" ++ [LF] ++ "%% tags: math" ++ [LF])
       else None;
     ReadDir := fun path =>
       if strEq path "/vault/templates"
       then Some [ {| Name := "base.sty"; IsDir := false |} ]
       else None;
     Abs := fun path => Some path |}.

(** A file system whose notes can all be read and hold no metadata. *)
Definition plainNotes : FileSystem :=
  {| statNotExist := fun _ => false;
     ReadFile := fun _ => Some ("\documentclass{article}" : str);
     ReadDir := fun _ => None;
     Abs := fun path => Some path |}.

Definition header (slug title : str) : NoteHeader :=
  {| Title := title; Date := []; Tags := []; Slug := slug; Filename := [] |}.

(** The index of [TestCompletion_References]. *)
Definition index : Index :=
  Index_Set
    (Index_Set NewIndex "graph-theory" (header "graph-theory" "Graph Theory"))
    "linear-algebra" (header "linear-algebra" "Linear Algebra").

(** The index of [TestDiagnostics_BrokenLinks]. *)
Definition oneNote : Index :=
  Index_Set NewIndex "existing-note" (header "existing-note" "Existing Note").

End sample.
(** * Properties *)

(** ** Byte strings *)

Lemma HasPrefix_spec (s p : str) :
  HasPrefix s p = true <-> exists r, s = p ++ r.
Proof.
  revert s; induction p as [|c p IH]; intros s; simpl.
  - split; [intros _; exists s; reflexivity | reflexivity].
  - destruct s as [|d s]; [split; [discriminate | intros [r Hr]; discriminate] |].
    rewrite andb_true_iff, IH. split.
    + intros [Hc [r ->]]. apply Ascii.eqb_eq in Hc as ->. eauto.
    + intros [r Hr]. injection Hr as -> ->. rewrite Ascii.eqb_refl. eauto.
Qed.

Lemma HasPrefix_app (p r : str) : HasPrefix (p ++ r) p = true.
Proof. apply HasPrefix_spec; eauto. Qed.

Lemma HasSuffix_spec (s p : str) :
  HasSuffix s p = true <-> exists r, s = r ++ p.
Proof.
  unfold HasSuffix. rewrite HasPrefix_spec. split; intros [r Hr].
  - exists (rev r). rewrite <- (rev_involutive s), Hr, rev_app_distr.
    by rewrite rev_involutive.
  - exists (rev r). by rewrite Hr, rev_app_distr.
Qed.

Lemma TrimSuffix_app (b p : str) : TrimSuffix (b ++ p) p = b.
Proof.
  unfold TrimSuffix.
  replace (HasSuffix (b ++ p) p) with true
    by (symmetry; apply HasSuffix_spec; eauto).
  rewrite length_app, Nat.add_sub. apply take_app_length.
Qed.

Lemma TrimSuffix_other (s p : str) : HasSuffix s p = false -> TrimSuffix s p = s.
Proof. unfold TrimSuffix. by intros ->. Qed.

Lemma Split_cons (c : ascii) (r : str) (sep : ascii) :
  Split (c :: r) sep =
  if Ascii.eqb c sep then [] :: Split r sep
  else match Split r sep with
       | x :: xs => (c :: x) :: xs
       | [] => [[c]]
       end.
Proof. reflexivity. Qed.

Lemma Split_nonempty (s : str) (sep : ascii) : Split s sep <> [].
Proof. destruct s as [|c s]; simpl; [done|]. by repeat case_match. Qed.

Lemma Split_no_sep (s : str) (sep : ascii) : sep ∉ s -> Split s sep = [s].
Proof.
  induction s as [|c s IH]; simpl; intros Hs; [done|].
  apply not_elem_of_cons in Hs as [Hc Hs].
  destruct (Ascii.eqb_spec c sep) as [->|_]; [done|]. by rewrite IH.
Qed.

Lemma Split_app (a b : str) (sep : ascii) :
  sep ∉ a -> Split (a ++ sep :: b) sep = a :: Split b sep.
Proof.
  induction a as [|c a IH]; simpl; intros Ha.
  - by rewrite Ascii.eqb_refl.
  - apply not_elem_of_cons in Ha as [Hc Ha].
    destruct (Ascii.eqb_spec c sep) as [->|_]; [done|]. by rewrite IH.
Qed.

Lemma SplitN_cons (c : ascii) (r : str) (sep : ascii) (n : nat) :
  SplitN (c :: r) sep (S (S n)) =
  if Ascii.eqb c sep then [] :: SplitN r sep (S n)
  else match SplitN r sep (S (S n)) with
       | x :: xs => (c :: x) :: xs
       | [] => [[c]]
       end.
Proof. reflexivity. Qed.

Lemma SplitN_1 (s : str) (sep : ascii) : SplitN s sep 1 = [s].
Proof. by destruct s. Qed.

Lemma SplitN_2_no_sep (s : str) (sep : ascii) : sep ∉ s -> SplitN s sep 2 = [s].
Proof.
  induction s as [|c s IH]; intros Hs; [done|].
  apply not_elem_of_cons in Hs as [Hc Hs]. rewrite SplitN_cons, (IH Hs).
  by destruct (Ascii.eqb_spec c sep) as [->|_].
Qed.

Lemma SplitN_2_app (a b : str) (sep : ascii) :
  sep ∉ a -> SplitN (a ++ sep :: b) sep 2 = [a; b].
Proof.
  induction a as [|c a IH]; intros Ha.
  - simpl app. by rewrite SplitN_cons, Ascii.eqb_refl, SplitN_1.
  - apply not_elem_of_cons in Ha as [Hc Ha]. simpl app.
    rewrite SplitN_cons, (IH Ha).
    by destruct (Ascii.eqb_spec c sep) as [->|_].
Qed.

Lemma isDigit_not_hyphen (c : ascii) : isDigit c = true -> c <> "-"%char.
Proof. intros H ->. discriminate. Qed.

(** ** The slug resolver *)

(** C4: [parseFilenameToSlug] strips a trailing note extension [.tex]; when
    the segment of the remaining name before its first hyphen is exactly
    eight ASCII digits it returns what follows that hyphen, and otherwise the
    extension-stripped name unchanged.  It is a total function, and maps
    [20240101-graph-theory.tex] to [graph-theory] and [simple.tex] to
    [simple]. *)
Theorem parseFilenameToSlug_spec (filename : str) :
  let name := TrimSuffix filename ".tex" in
  (forall base : str, filename = base ++ ".tex" -> name = base)
  /\ (HasSuffix filename ".tex" = false -> name = filename)
  /\ (forall segment rest : str,
        name = segment ++ "-" ++ rest -> "-"%char ∉ segment ->
        server.parseFilenameToSlug filename =
          if (length segment =? 8)%nat && forallb isDigit segment
          then rest else name)
  /\ ("-"%char ∉ name -> server.parseFilenameToSlug filename = name)
  /\ server.parseFilenameToSlug "20240101-graph-theory.tex" = "graph-theory"
  /\ server.parseFilenameToSlug "simple.tex" = "simple".
Proof.
  cbv zeta. split; [|split; [|split; [|split; [|split]]]].
  - intros base ->. apply TrimSuffix_app.
  - apply TrimSuffix_other.
  - intros segment rest Hname Hseg. unfold server.parseFilenameToSlug.
    rewrite Hname. change (segment ++ "-" ++ rest) with (segment ++ "-"%char :: rest).
    by rewrite SplitN_2_app.
  - intros Hname. unfold server.parseFilenameToSlug. by rewrite SplitN_2_no_sep.
  - reflexivity.
  - reflexivity.
Qed.

(** ** URIs *)

(** For a URI of at least seven bytes other than [file://], [uriToPath]
    returns the URI without its first seven bytes, whether or not it starts
    with [file://]; and [IsManaged] judges such a URI by those remaining
    bytes alone. *)
Lemma uriToPath_drops_seven (vault : server.Vault) (fs : server.FileSystem)
    (uri : str) :
  uri <> "file://" -> 7 <= length uri ->
  server.uriToPath uri = Some (drop 7 uri)
  /\ forall other : str,
       other <> "file://" -> 7 <= length other -> drop 7 other = drop 7 uri ->
       server.IsManaged vault fs other = server.IsManaged vault fs uri.
Proof.
  assert (Hpath : forall u : str,
             u <> "file://" -> 7 <= length u ->
             server.uriToPath u = Some (drop 7 u)).
  { intros u Hne Hlen. unfold server.uriToPath, TrimPrefix.
    destruct (HasPrefix u "file://") eqn:Hp.
    - apply HasPrefix_spec in Hp as [r ->].
      destruct r as [|c r]; [by destruct Hne|].
      by apply Nat.leb_le in Hlen as ->.
    - destruct u as [|c u]; [simpl in Hlen; lia|].
      by apply Nat.leb_le in Hlen as ->. }
  intros Hne Hlen. split; [by apply Hpath|].
  intros other Hne' Hlen' Heq. unfold server.IsManaged.
  by rewrite !Hpath, Heq.
Qed.

Example uriToPath_http :
  server.uriToPath "http://host/a.tex" = Some ("host/a.tex" : str)
  /\ server.uriToPath "file:///vault/notes/a.tex" = Some ("/vault/notes/a.tex" : str)
  /\ server.uriToPath "file://" = Some ("file://" : str)
  /\ server.uriToPath [] = Some [].
Proof. repeat split. Qed.

(** C10 at a URI of fewer than seven bytes: the claim has [uriToPath]
    return the URI without its first seven bytes, the empty string; the slice
    expression [path[7:]] panics instead, and [IsManaged] with it. *)
Lemma uriToPath_short_uri_panics :
  server.uriToPath "file:/" = None
  /\ server.IsManaged sample.vault sample.fs "file:/" = None
  /\ drop 7 ("file:/" : str) = [].
Proof. repeat split. Qed.


(** ** Regular expressions *)

Lemma takeWhile_split (p : ascii -> bool) (s : str) :
  s = takeWhile p s ++ drop (length (takeWhile p s)) s.
Proof. induction s as [|c s IH]; simpl; [done|]. destruct (p c); simpl; congruence. Qed.

Lemma takeWhile_Forall (p : ascii -> bool) (s : str) :
  Forall (fun c => p c = true) (takeWhile p s).
Proof.
  induction s as [|c s IH]; simpl; [constructor|].
  destruct (p c) eqn:Hc; by constructor.
Qed.

Lemma takeWhile_stops (p : ascii -> bool) (s : str) (c : ascii) (r : str) :
  drop (length (takeWhile p s)) s = c :: r -> p c = false.
Proof.
  induction s as [|d s IH]; simpl; [done|].
  destruct (p d) eqn:Hd; simpl; [done|]. by intros [= -> _].
Qed.

Lemma takeWhile_app (p : ascii -> bool) (a : str) (c : ascii) (r : str) :
  Forall (fun x => p x = true) a -> p c = false -> takeWhile p (a ++ c :: r) = a.
Proof.
  intros Ha Hc. induction Ha as [|x a Hx _ IH]; simpl; [by rewrite Hc|].
  by rewrite Hx, IH.
Qed.

Lemma notBrace_Forall (arg : str) :
  Forall (fun c => notBrace c = true) arg <-> "}"%char ∉ arg.
Proof.
  rewrite Forall_forall. unfold notBrace. split.
  - intros H Hin. specialize (H _ Hin). by rewrite Ascii.eqb_refl in H.
  - intros H c Hc. destruct (Ascii.eqb_spec c "}") as [->|]; done.
Qed.

Lemma find_HasPrefix (cmds : list str) (s cmd : str) :
  List.find (HasPrefix s) cmds = Some cmd -> cmd ∈ cmds /\ exists r, s = cmd ++ r.
Proof.
  intros H. apply find_some in H as [Hin Hp].
  split; [by apply list_elem_of_In | by apply HasPrefix_spec].
Qed.

Lemma matchBracedAt_Some (cmds : list str) (s : str) (a b : nat) :
  matchBracedAt cmds s = Some (a, b) ->
  exists cmd arg post : str,
    cmd ∈ cmds /\ s = cmd ++ arg ++ "}" ++ post
    /\ arg <> [] /\ ("}"%char ∉ arg)
    /\ a = length cmd /\ b = a + length arg.
Proof.
  unfold matchBracedAt. destruct (List.find _ cmds) as [cmd|] eqn:Hfind; [|done].
  apply find_HasPrefix in Hfind as [Hin [r ->]].
  rewrite drop_app_length.
  destruct (takeWhile notBrace r) as [|x arg] eqn:Harg; [done|].
  destruct (drop (length (x :: arg)) r) as [|c post] eqn:Hpost; [done|].
  intros [= <- <-]. exists cmd, (x :: arg), post.
  assert (Hc : c = "}"%char).
  { rewrite <- Harg in Hpost. apply takeWhile_stops in Hpost.
    unfold notBrace in Hpost. apply negb_false_iff, Ascii.eqb_eq in Hpost. done. }
  subst c. repeat split; try done.
  - f_equal. rewrite (takeWhile_split notBrace r), Harg, Hpost. done.
  - apply notBrace_Forall. rewrite <- Harg. apply takeWhile_Forall.
Qed.

Lemma findAllFrom_sound (cmds : list str) (s : str) :
  forall (skip pos : nat) (m : Match),
    m ∈ findAllFrom cmds skip pos s ->
    exists pre cmd arg post : str,
      cmd ∈ cmds /\ s = pre ++ cmd ++ arg ++ "}" ++ post
      /\ arg <> [] /\ ("}"%char ∉ arg)
      /\ matchStart m = pos + length pre
      /\ groupStart m = pos + length pre + length cmd
      /\ groupEnd m = groupStart m + length arg
      /\ matchEnd m = groupEnd m + 1.
Proof.
  induction s as [|c s IH]; intros skip pos m; simpl; [by intros ?%elem_of_nil|].
  assert (Hrec : forall k, m ∈ findAllFrom cmds k (S pos) s ->
            exists pre cmd arg post : str,
              cmd ∈ cmds /\ c :: s = pre ++ cmd ++ arg ++ "}" ++ post
              /\ arg <> [] /\ ("}"%char ∉ arg)
              /\ matchStart m = pos + length pre
              /\ groupStart m = pos + length pre + length cmd
              /\ groupEnd m = groupStart m + length arg
              /\ matchEnd m = groupEnd m + 1).
  { intros k Hm. apply IH in Hm as (pre & cmd & arg & post & ? & -> & ? & ? & ? & ? & ? & ?).
    exists (c :: pre), cmd, arg, post. simpl. repeat split; try done; lia. }
  destruct skip as [|k]; [|apply Hrec].
  destruct (matchBracedAt cmds (c :: s)) as [[a b]|] eqn:Hmatch; [|apply Hrec].
  intros [->|Hm]%elem_of_cons; [|by eapply Hrec].
  apply matchBracedAt_Some in Hmatch as (cmd & arg & post & ? & Hs & ? & ? & -> & ->).
  exists [], cmd, arg, post. simpl. repeat split; try done; lia.
Qed.

Lemma matchBracedAt_other (cmds : list str) (c : ascii) (s : str) :
  Forall (fun cmd => HasPrefix [c] (take 1 cmd) = false) cmds ->
  matchBracedAt cmds (c :: s) = None.
Proof.
  intros Hcmds. unfold matchBracedAt.
  destruct (List.find _ cmds) as [cmd|] eqn:Hfind; [|done].
  apply find_HasPrefix in Hfind as [Hin [r Hr]].
  rewrite Forall_forall in Hcmds. specialize (Hcmds _ Hin).
  destruct cmd as [|d cmd]; [done|]. simpl in Hr, Hcmds.
  injection Hr as <- _. by rewrite Ascii.eqb_refl in Hcmds.
Qed.

Lemma slice_middle (pre arg post : str) :
  slice (pre ++ arg ++ post) (length pre) (length pre + length arg) = arg.
Proof.
  unfold slice. rewrite drop_app_length.
  replace (length pre + length arg - length pre) with (length arg) by lia.
  apply take_app_length.
Qed.

Lemma findAllFrom_cons (cmds : list str) (pos : nat) (c : ascii) (s : str) :
  findAllFrom cmds 0 pos (c :: s) =
  match matchBracedAt cmds (c :: s) with
  | Some (a, b) =>
      {| matchStart := pos; groupStart := pos + a;
         groupEnd := pos + b; matchEnd := pos + b + 1 |}
        :: findAllFrom cmds b (S pos) s
  | None => findAllFrom cmds 0 (S pos) s
  end.
Proof. reflexivity. Qed.

(** The first span of a line is found when no backslash precedes it. *)
Lemma findAllFrom_first (cmd arg post : str) (pre : str) (pos : nat) :
  cmd = "\ref{" \/ cmd = "\cite{" ->
  "\"%char ∉ pre -> arg <> [] -> "}"%char ∉ arg ->
  {| matchStart := pos + length pre;
     groupStart := pos + length pre + length cmd;
     groupEnd := pos + length pre + length cmd + length arg;
     matchEnd := pos + length pre + length cmd + length arg + 1 |}
  ∈ findAllFrom ["\ref{" : str; "\cite{" : str] 0 pos
      (pre ++ cmd ++ arg ++ "}" ++ post).
Proof.
  intros Hcmd Hpre Harg Hbrace. revert pos.
  induction pre as [|c pre IH]; intros pos.
  - assert (Hm : matchBracedAt ["\ref{" : str; "\cite{" : str]
                   (cmd ++ arg ++ "}" ++ post)
                 = Some (length cmd, length cmd + length arg)).
    { unfold matchBracedAt.
      assert (Hfind : List.find (HasPrefix (cmd ++ arg ++ "}" ++ post))
                        ["\ref{" : str; "\cite{" : str] = Some cmd)
        by (destruct Hcmd as [-> | ->]; reflexivity).
      rewrite Hfind, drop_app_length.
      change ("}" ++ post) with ("}"%char :: post).
      rewrite takeWhile_app by (by rewrite ?notBrace_Forall).
      destruct arg as [|x arg]; [done|].
      by rewrite (drop_app_length (x :: arg)). }
    simpl app at 1. simpl length. rewrite !Nat.add_0_r.
    destruct cmd as [|c0 cmd]; [by destruct Hcmd|].
    simpl app in *. rewrite findAllFrom_cons, Hm.
    rewrite Nat.add_assoc. apply list_elem_of_here.
  - apply not_elem_of_cons in Hpre as [Hc Hpre]. simpl app.
    rewrite findAllFrom_cons, matchBracedAt_other.
    + specialize (IH Hpre (S pos)). simpl length.
      replace (pos + S (length pre)) with (S pos + length pre) by lia. apply IH.
    + assert (Hne : Ascii.eqb c "\" = false)
        by (destruct (Ascii.eqb_spec c "\"); congruence).
      repeat (constructor; [simpl; by rewrite Hne|]). constructor.
Qed.

(** ** Every top-level span is found *)

Lemma findAllFrom_skip (cmds : list str) (junk s : str) (pos : nat) :
  findAllFrom cmds (length junk) pos (junk ++ s)
  = findAllFrom cmds 0 (pos + length junk) s.
Proof.
  revert pos. induction junk as [|c junk IH]; intros pos; simpl.
  - by rewrite Nat.add_0_r.
  - rewrite IH. f_equal. lia.
Qed.

(** The text up to the first closing brace is determined. *)
Lemma first_brace_unique (x y x' y' : str) :
  "}"%char ∉ x -> "}"%char ∉ x' ->
  x ++ "}"%char :: y = x' ++ "}"%char :: y' -> x = x' /\ y = y'.
Proof.
  revert x'. induction x as [|c x IH]; intros [|c' x'] Hx Hx'; simpl.
  - by intros [= ->].
  - intros [= <- _]. by apply not_elem_of_cons in Hx' as [[] _].
  - intros [= -> _]. by apply not_elem_of_cons in Hx as [[] _].
  - intros [= <- Heq]. apply not_elem_of_cons in Hx as [_ Hx].
    apply not_elem_of_cons in Hx' as [_ Hx'].
    by destruct (IH x' Hx Hx' Heq) as [-> ->].
Qed.

Lemma closedBefore_suffix (cmds : list str) (a pre : str) :
  closedBefore cmds (a ++ pre) -> closedBefore cmds pre.
Proof.
  intros Hclosed a' cmd b Hcmd ->. apply (Hclosed (a ++ a') cmd b Hcmd).
  by rewrite <- app_assoc.
Qed.


Section Scanner.

(** The commands of a pattern: each starts with a backslash, which occurs
    nowhere else in it, and none is a prefix of another. *)
Variable cmds : list str.
Hypothesis commands_shape :
  forall cmd : str, cmd ∈ cmds -> exists r : str, cmd = "\"%char :: r /\ "\"%char ∉ r.
Hypothesis commands_prefix_free :
  forall cmd cmd' r r' : str,
    cmd ∈ cmds -> cmd' ∈ cmds -> cmd ++ r = cmd' ++ r' -> cmd = cmd'.

Lemma matchBracedAt_here (cmd arg post : str) :
  cmd ∈ cmds -> arg <> [] -> "}"%char ∉ arg ->
  matchBracedAt cmds (cmd ++ arg ++ "}" ++ post)
  = Some (length cmd, length cmd + length arg).
Proof.
  intros Hcmd Harg Hbrace. unfold matchBracedAt.
  assert (Hfind : List.find (HasPrefix (cmd ++ arg ++ "}" ++ post)) cmds = Some cmd).
  { destruct (List.find _ cmds) as [cmd'|] eqn:Hfind.
    - apply find_HasPrefix in Hfind as [Hin [r Hr]].
      by rewrite (commands_prefix_free cmd cmd' _ r Hcmd Hin Hr).
    - apply find_none with (x := cmd) in Hfind; [|by apply list_elem_of_In].
      by rewrite HasPrefix_app in Hfind. }
  rewrite Hfind, drop_app_length.
  change ("}" ++ post) with ("}"%char :: post).
  rewrite takeWhile_app by (by rewrite ?notBrace_Forall).
  destruct arg as [|x arg]; [done|].
  by rewrite (drop_app_length (x :: arg)).
Qed.

(** A command that starts before another one ends before it starts. *)
Lemma command_before (cmd' cmd pre r t : str) :
  cmd' ∈ cmds -> cmd ∈ cmds -> pre <> [] -> cmd' ++ r = pre ++ cmd ++ t ->
  exists b : str, pre = cmd' ++ b.
Proof.
  intros Hcmd' Hcmd Hpre Heq.
  apply app_eq_inv in Heq as [(k & Hk & Ht)|(k & Hk & _)]; [|by exists k].
  destruct k as [|c k].
  { rewrite app_nil_r in Hk. subst pre. exists []. by rewrite app_nil_r. }
  exfalso.
  destruct (commands_shape cmd Hcmd) as (r0 & -> & _).
  injection Ht as <- _.
  destruct (commands_shape cmd' Hcmd') as (r' & -> & Hr').
  destruct pre as [|p0 pre]; [done|]. injection Hk as _ ->.
  apply Hr', elem_of_app. right. by left.
Qed.

(** A span that lies in the argument of no earlier command is among the
    matches, with its offsets. *)
Lemma findAllFrom_complete (cmd arg post : str) :
  cmd ∈ cmds -> arg <> [] -> "}"%char ∉ arg ->
  forall (n : nat) (pre : str) (pos : nat),
    length pre <= n ->
    closedBefore cmds pre ->
    {| matchStart := pos + length pre;
       groupStart := pos + length pre + length cmd;
       groupEnd := pos + length pre + length cmd + length arg;
       matchEnd := pos + length pre + length cmd + length arg + 1 |}
    ∈ findAllFrom cmds 0 pos (pre ++ cmd ++ arg ++ "}" ++ post).
Proof.
  intros Hcmd Harg Hbrace n.
  induction n as [|n IH]; intros pre pos Hlen Hclosed.
  - destruct pre; [|simpl in Hlen; lia]. simpl length. rewrite !Nat.add_0_r.
    pose proof (matchBracedAt_here cmd arg post Hcmd Harg Hbrace) as Hm.
    destruct (commands_shape cmd Hcmd) as (r0 & -> & _).
    simpl app in *. rewrite findAllFrom_cons, Hm.
    rewrite Nat.add_assoc. apply list_elem_of_here.
  - destruct pre as [|c pre].
    { apply (IH [] pos); [simpl; lia | done]. }
    simpl app. rewrite findAllFrom_cons.
    destruct (matchBracedAt _ (c :: _)) as [[a b]|] eqn:Hmatch.
    + apply matchBracedAt_Some in Hmatch
        as (cmd' & arg' & post' & Hcmd' & Hs & Harg' & Hbrace' & -> & ->).
      destruct (command_before cmd' cmd (c :: pre) (arg' ++ "}" ++ post')
                  (arg ++ "}" ++ post) Hcmd' Hcmd) as [b0 Hb0]; [done|done|].
      pose proof (Hclosed [] cmd' b0 Hcmd' Hb0) as Hin.
      apply list_elem_of_split_l in Hin as (x & y & -> & Hx).
      assert (Hs' : (cmd' ++ x ++ "}"%char :: y) ++ cmd ++ arg ++ "}"%char :: post
                    = cmd' ++ arg' ++ "}"%char :: post')
        by (rewrite <- Hb0; exact Hs).
      rewrite <- !app_assoc in Hs'. apply app_inv_head in Hs'.
      simpl in Hs'. symmetry in Hs'.
      apply first_brace_unique in Hs' as [-> ->]; [|done..].
      apply list_elem_of_further.
      assert (Hy : closedBefore cmds y).
      { apply (closedBefore_suffix _ (cmd' ++ x ++ ["}"%char])).
        rewrite <- !app_assoc. simpl. by rewrite <- Hb0. }
      assert (Hleny : length y <= n).
      { apply (f_equal length) in Hb0. simpl in Hb0, Hlen.
        rewrite !length_app in Hb0. simpl in Hb0. lia. }
      assert (Hsplit : exists junk : str,
                 pre ++ cmd ++ arg ++ "}"%char :: post
                 = junk ++ y ++ cmd ++ arg ++ "}"%char :: post
                 /\ length junk = length cmd' + length x
                 /\ length pre = length junk + length y).
      { destruct (commands_shape cmd' Hcmd') as (r' & -> & _).
        simpl in Hb0. injection Hb0 as -> ->.
        exists (r' ++ x ++ ["}"%char]). rewrite <- !app_assoc. simpl.
        rewrite !length_app. simpl. split; [done|]. split; lia. }
      destruct Hsplit as (junk & -> & Hjunk & Hpre).
      rewrite <- Hjunk, findAllFrom_skip.
      specialize (IH y (S pos + length junk) Hleny Hy).
      simpl length. rewrite Hpre.
      replace (pos + S (length junk + length y))
        with (S pos + length junk + length y) by lia.
      apply IH.
    + specialize (IH pre (S pos)). simpl length.
      replace (pos + S (length pre)) with (S pos + length pre) by lia.
      apply IH; [simpl in Hlen; lia|].
      by apply (closedBefore_suffix _ [c]).
Qed.

End Scanner.

(** The command sets of the three patterns of the server. *)
Lemma refCommands_shape (cmd : str) :
  cmd ∈ ["\ref{" : str; "\cite{" : str; "\input{" : str; "\include{" : str;
         "\todo{" : str] ->
  exists r : str, cmd = "\"%char :: r /\ "\"%char ∉ r.
Proof.
  rewrite !elem_of_cons, elem_of_nil.
  intros [->|[->|[->|[->|[->|[]]]]]]; eexists; (split; [reflexivity|]);
    apply (bool_decide_unpack _); vm_compute; reflexivity.
Qed.

Lemma refCommands_prefix_free (cmd cmd' r r' : str) :
  cmd ∈ ["\ref{" : str; "\cite{" : str; "\input{" : str; "\include{" : str;
         "\todo{" : str] ->
  cmd' ∈ ["\ref{" : str; "\cite{" : str; "\input{" : str; "\include{" : str;
          "\todo{" : str] ->
  cmd ++ r = cmd' ++ r' -> cmd = cmd'.
Proof.
  intros H H' Heq. rewrite !elem_of_cons, elem_of_nil in H.
  rewrite !elem_of_cons, elem_of_nil in H'.
  destruct H as [->|[->|[->|[->|[->|[]]]]]];
    destruct H' as [->|[->|[->|[->|[->|[]]]]]];
    (reflexivity || (simpl in Heq; discriminate Heq)).
Qed.

Lemma sub_commands (cmds : list str) :
  cmds ⊆ ["\ref{" : str; "\cite{" : str; "\input{" : str; "\include{" : str;
          "\todo{" : str] ->
  (forall cmd : str, cmd ∈ cmds ->
     exists r : str, cmd = "\"%char :: r /\ "\"%char ∉ r)
  /\ (forall cmd cmd' r r' : str,
        cmd ∈ cmds -> cmd' ∈ cmds -> cmd ++ r = cmd' ++ r' -> cmd = cmd').
Proof.
  intros Hsub. split.
  - intros cmd Hcmd. by apply refCommands_shape, Hsub.
  - intros cmd cmd' r r' Hcmd Hcmd'. apply refCommands_prefix_free; by apply Hsub.
Qed.

Lemma findAll_complete (cmds : list str) (pre cmd arg post : str) :
  cmds ⊆ ["\ref{" : str; "\cite{" : str; "\input{" : str; "\include{" : str;
          "\todo{" : str] ->
  cmd ∈ cmds -> arg <> [] -> "}"%char ∉ arg -> closedBefore cmds pre ->
  {| matchStart := length pre;
     groupStart := length pre + length cmd;
     groupEnd := length pre + length cmd + length arg;
     matchEnd := length pre + length cmd + length arg + 1 |}
  ∈ FindAllStringSubmatchIndex cmds (pre ++ cmd ++ arg ++ "}" ++ post).
Proof.
  intros Hsub Hcmd Harg Hbrace Hclosed.
  destruct (sub_commands cmds Hsub) as [Hshape Hfree].
  apply (findAllFrom_complete cmds Hshape Hfree cmd arg post Hcmd Harg Hbrace
           (length pre) pre 0); [lia | done].
Qed.

Lemma refPattern_commands :
  ["\ref{" : str; "\cite{" : str]
  ⊆ ["\ref{" : str; "\cite{" : str; "\input{" : str; "\include{" : str;
     "\todo{" : str].
Proof. intros x. rewrite !elem_of_cons. tauto. Qed.

Lemma todoPattern_commands :
  ["\todo{" : str]
  ⊆ ["\ref{" : str; "\cite{" : str; "\input{" : str; "\include{" : str;
     "\todo{" : str].
Proof. intros x. rewrite !elem_of_cons. tauto. Qed.

Lemma linkPattern_commands :
  ["\ref{" : str; "\cite{" : str; "\input{" : str; "\include{" : str]
  ⊆ ["\ref{" : str; "\cite{" : str; "\input{" : str; "\include{" : str;
     "\todo{" : str].
Proof. intros x. rewrite !elem_of_cons. tauto. Qed.

(** ** Diagnostics *)

Lemma analyzeLines_elem (index : gmap str server.NoteHeader) (lines : list str) :
  forall (lineNum : nat) (d : server.Diagnostic),
    d ∈ server.analyzeLines index lineNum lines <->
    exists (j : nat) (line : str),
      lines !! j = Some line /\ d ∈ server.lineDiagnostics index (lineNum + j) line.
Proof.
  induction lines as [|l lines IH]; intros lineNum d; simpl.
  - split; [by intros ?%elem_of_nil | by intros (j & line & ? & _)].
  - rewrite elem_of_app, IH. split.
    + intros [Hd | (j & line & Hj & Hd)].
      * exists 0, l. by rewrite Nat.add_0_r.
      * exists (S j), line. by rewrite Nat.add_succ_r.
    + intros (j & line & Hj & Hd). destruct j as [|j]; simpl in Hj.
      * left. injection Hj as ->. by rewrite Nat.add_0_r in Hd.
      * right. exists j, line. by rewrite Nat.add_succ_r in Hd.
Qed.

Lemma refDiagnostics_elem (index : gmap str server.NoteHeader) (lineNum : nat)
    (line : str) (d : server.Diagnostic) :
  d ∈ server.refDiagnostics index lineNum line <->
  exists m : Match,
    m ∈ FindAllStringSubmatchIndex ["\ref{" : str; "\cite{" : str] line
    /\ let slug := TrimSuffix (TrimSpace (slice line (groupStart m) (groupEnd m))) ".tex" in
       server.Index_Get index slug = None
       /\ d = {| server.DiagRange := server.mkRange lineNum (groupStart m) (groupEnd m);
                 server.Severity := server.SeverityError;
                 server.Message := "Note '" ++ slug ++ "' not found";
                 server.Source := "lx-ls" |}.
Proof.
  unfold server.refDiagnostics. rewrite list_elem_of_In, in_flat_map. split.
  - intros (m & Hm & Hd). exists m. split; [by apply list_elem_of_In|]. cbv zeta.
    destruct (server.Index_Get index _); [by destruct Hd|].
    destruct Hd as [<-|[]]. done.
  - intros (m & Hm & Hnone & ->). exists m. split; [by apply list_elem_of_In|].
    cbv zeta in Hnone. rewrite Hnone. by left.
Qed.

Lemma todoDiagnostics_severity (lineNum : nat) (line : str) (d : server.Diagnostic) :
  d ∈ server.todoDiagnostics lineNum line ->
  server.Severity d = server.SeverityWarning
  /\ server.PosLine (server.RangeStart (server.DiagRange d)) = server.uint32 lineNum.
Proof.
  unfold server.todoDiagnostics. rewrite list_elem_of_In, in_map_iff.
  by intros (m & <- & _).
Qed.

Lemma lineDiagnostics_elem (index : gmap str server.NoteHeader) (lineNum : nat)
    (line : str) (d : server.Diagnostic) :
  d ∈ server.lineDiagnostics index lineNum line ->
  server.isCommentLine line = false
  /\ server.PosLine (server.RangeStart (server.DiagRange d)) = server.uint32 lineNum.
Proof.
  unfold server.lineDiagnostics.
  destruct (server.isCommentLine line); [by intros ?%elem_of_nil|].
  intros [Hd|Hd]%elem_of_app; split; try done.
  - apply refDiagnostics_elem in Hd as (m & _ & _ & ->). done.
  - by apply todoDiagnostics_severity in Hd as [_ ?].
Qed.

Lemma uint32_small (n : nat) :
  (N.of_nat n < 2 ^ 32)%N -> server.uint32 n = N.of_nat n.
Proof. intros H. unfold server.uint32. by apply N.mod_small. Qed.

(** C6: a line whose trimmed text starts with [%] yields no diagnostic,
    whatever markup it holds: every diagnostic of [analyzeDiagnostics] comes
    from a line that is not such a comment and carries the number of that
    line, so that none is located on the comment line (line numbers being
    reported modulo 2^32, this last reading supposes a document of at most
    2^32 lines). *)
Theorem comment_line_yields_no_diagnostic (index : gmap str server.NoteHeader)
    (content : str) (i : nat) (line : str) :
  Split content LF !! i = Some line ->
  HasPrefix (TrimSpace line) "%" = true ->
  server.lineDiagnostics index i line = []
  /\ (forall d : server.Diagnostic,
        d ∈ server.analyzeDiagnostics index content ->
        exists (j : nat) (from : str),
          j <> i /\ Split content LF !! j = Some from
          /\ HasPrefix (TrimSpace from) "%" = false
          /\ d ∈ server.lineDiagnostics index j from
          /\ server.PosLine (server.RangeStart (server.DiagRange d))
             = server.uint32 j)
  /\ ((N.of_nat (length (Split content LF)) <= 2 ^ 32)%N ->
      forall d : server.Diagnostic,
        d ∈ server.analyzeDiagnostics index content ->
        server.PosLine (server.RangeStart (server.DiagRange d)) <> N.of_nat i).
Proof.
  intros Hline Hcomment.
  assert (Hfrom : forall d : server.Diagnostic,
             d ∈ server.analyzeDiagnostics index content ->
             exists (j : nat) (from : str),
               j <> i /\ Split content LF !! j = Some from
               /\ HasPrefix (TrimSpace from) "%" = false
               /\ d ∈ server.lineDiagnostics index j from
               /\ server.PosLine (server.RangeStart (server.DiagRange d))
                  = server.uint32 j).
  { intros d Hd. apply analyzeLines_elem in Hd as (j & from & Hj & Hd).
    simpl in Hd. destruct (lineDiagnostics_elem _ _ _ _ Hd) as [Hc Hpos].
    exists j, from. repeat split; try done.
    intros ->. rewrite Hline in Hj. injection Hj as ->.
    unfold server.isCommentLine in Hc. congruence. }
  split; [|split; [done|]].
  - unfold server.lineDiagnostics, server.isCommentLine. by rewrite Hcomment.
  - intros Hlen d Hd.
    destruct (Hfrom d Hd) as (j & from & Hne & Hj & _ & _ & ->).
    apply lookup_lt_Some in Hj. rewrite uint32_small by lia. lia.
Qed.

Lemma comment_line_yields_no_diagnostic_witness :
  Split "% \ref{broken-link} \todo{later}" LF !! 0
    = Some ("% \ref{broken-link} \todo{later}" : str)
  /\ HasPrefix (TrimSpace "% \ref{broken-link} \todo{later}") "%" = true
  /\ server.lineDiagnostics sample.oneNote 0 "% \ref{broken-link} \todo{later}" = []
  /\ (forall d : server.Diagnostic,
        d ∈ server.analyzeDiagnostics sample.oneNote "% \ref{broken-link} \todo{later}" ->
        exists (j : nat) (from : str),
          j <> 0 /\ Split "% \ref{broken-link} \todo{later}" LF !! j = Some from
          /\ HasPrefix (TrimSpace from) "%" = false
          /\ d ∈ server.lineDiagnostics sample.oneNote j from
          /\ server.PosLine (server.RangeStart (server.DiagRange d))
             = server.uint32 j)
  /\ ((N.of_nat (length (Split "% \ref{broken-link} \todo{later}" LF)) <= 2 ^ 32)%N ->
      forall d : server.Diagnostic,
        d ∈ server.analyzeDiagnostics sample.oneNote "% \ref{broken-link} \todo{later}" ->
        server.PosLine (server.RangeStart (server.DiagRange d)) <> N.of_nat 0).
Proof.
  split; [reflexivity|]. split; [reflexivity|].
  apply (comment_line_yields_no_diagnostic sample.oneNote
           "% \ref{broken-link} \todo{later}" 0 "% \ref{broken-link} \todo{later}");
    reflexivity.
Defined.

Lemma refCommand_cases (cmd : str) :
  cmd ∈ ["\ref{" : str; "\cite{" : str] -> cmd = "\ref{" \/ cmd = "\cite{".
Proof.
  intros [->|Hcmd]%elem_of_cons; [by left|].
  apply elem_of_cons in Hcmd as [->|Hcmd]; [by right|].
  by apply elem_of_nil in Hcmd.
Qed.

Lemma slice_argument (pre cmd arg post : str) :
  slice (pre ++ cmd ++ arg ++ "}" ++ post) (length pre + length cmd)
    (length pre + length cmd + length arg) = arg.
Proof.
  rewrite (app_assoc pre cmd), <- length_app. apply slice_middle.
Qed.

(** C7: every error diagnostic of [analyzeDiagnostics] sits on the argument
    of a [\ref{...}] or [\cite{...}] occurrence of a line that is not a
    comment: its range runs, on the line of the occurrence, from the first
    byte of the argument to the byte after its last (line and offsets as
    unsigned 32-bit numbers), and its message names the slug of the argument
    (trimmed, without a trailing [.tex]), which the index lacks; no other
    markup, [\input] and [\include] included, gives rise to one.  Conversely
    each occurrence on such a line whose slug the index lacks is reported so,
    wherever it stands on the line, provided that it does not lie in the
    argument of an earlier command (every [\ref{] and [\cite{] before it is
    followed by a closing brace before it).  With an index that holds only
    [existing-note], the two lines of the example yield exactly one error,
    on [missing-note]; two missing references on one line yield two. *)
Theorem broken_reference_errors (index : gmap str server.NoteHeader) (content : str) :
  let errorAt (lineNum a b : nat) (slug : str) : server.Diagnostic :=
    {| server.DiagRange :=
         {| server.RangeStart :=
              {| server.PosLine := (N.of_nat lineNum mod 2 ^ 32)%N;
                 server.PosCharacter := (N.of_nat a mod 2 ^ 32)%N |};
            server.RangeEnd :=
              {| server.PosLine := (N.of_nat lineNum mod 2 ^ 32)%N;
                 server.PosCharacter := (N.of_nat b mod 2 ^ 32)%N |} |};
       server.Severity := server.SeverityError;
       server.Message := "Note '" ++ slug ++ "' not found";
       server.Source := "lx-ls" |} in
  (forall d : server.Diagnostic,
     d ∈ server.analyzeDiagnostics index content ->
     server.Severity d = server.SeverityError ->
     exists (lineNum : nat) (line pre cmd arg post : str),
       Split content LF !! lineNum = Some line
       /\ HasPrefix (TrimSpace line) "%" = false
       /\ line = pre ++ cmd ++ arg ++ "}" ++ post
       /\ (cmd = "\ref{" \/ cmd = "\cite{")
       /\ arg <> [] /\ ("}"%char ∉ arg)
       /\ server.Index_Get index (TrimSuffix (TrimSpace arg) ".tex") = None
       /\ d = errorAt lineNum (length pre + length cmd)
                (length pre + length cmd + length arg)
                (TrimSuffix (TrimSpace arg) ".tex"))
  /\ (forall (lineNum : nat) (line pre cmd arg post : str),
        Split content LF !! lineNum = Some line ->
        HasPrefix (TrimSpace line) "%" = false ->
        line = pre ++ cmd ++ arg ++ "}" ++ post ->
        cmd = "\ref{" \/ cmd = "\cite{" ->
        arg <> [] -> "}"%char ∉ arg ->
        closedBefore ["\ref{" : str; "\cite{" : str] pre ->
        server.Index_Get index (TrimSuffix (TrimSpace arg) ".tex") = None ->
        errorAt lineNum (length pre + length cmd)
          (length pre + length cmd + length arg)
          (TrimSuffix (TrimSpace arg) ".tex")
        ∈ server.analyzeDiagnostics index content)
  /\ server.analyzeDiagnostics sample.oneNote
       ("Check \ref{existing-note}." ++ [LF] ++ "See \ref{missing-note}.")
     = [ errorAt 1 9 21 "missing-note" ]
  /\ server.analyzeDiagnostics sample.oneNote
       "See \input{missing-note} and \include{missing-note}." = []
  /\ server.analyzeDiagnostics sample.oneNote
       "\textbf{See} \ref{missing-a} and \cite{missing-b.tex}, not \ref{existing-note}."
     = [ errorAt 0 18 27 "missing-a"; errorAt 0 39 52 "missing-b" ].
Proof.
  intros errorAt. split; [|split; [|split; [|split]]].
  - intros d Hd Hsev. apply analyzeLines_elem in Hd as (j & line & Hj & Hd).
    simpl in Hd. unfold server.lineDiagnostics in Hd.
    destruct (server.isCommentLine line) eqn:Hc; [by apply elem_of_nil in Hd|].
    apply elem_of_app in Hd as [Hd|Hd].
    + apply refDiagnostics_elem in Hd as (m & Hm & Hnone & ->).
      apply findAllFrom_sound in Hm
        as (pre & cmd & arg & post & Hcmd & -> & Harg & Hbrace & _ & Hs & He & _).
      simpl in Hs. rewrite He, Hs, slice_argument in Hnone |- *.
      exists j, (pre ++ cmd ++ arg ++ "}" ++ post), pre, cmd, arg, post.
      split; [done|]. split; [done|]. split; [done|].
      split; [by apply refCommand_cases|]. repeat split; done.
    + apply todoDiagnostics_severity in Hd as [Hw _]. congruence.
  - intros lineNum line pre cmd arg post Hj Hc Hline Hcmd Harg Hbrace Hclosed Hnone.
    apply analyzeLines_elem. exists lineNum, line. split; [done|]. simpl.
    unfold server.lineDiagnostics, server.isCommentLine. rewrite Hc.
    apply elem_of_app. left. apply refDiagnostics_elem.
    exists {| matchStart := length pre;
              groupStart := length pre + length cmd;
              groupEnd := length pre + length cmd + length arg;
              matchEnd := length pre + length cmd + length arg + 1 |}.
    split.
    + rewrite Hline. apply findAll_complete; try done; [apply refPattern_commands|].
      destruct Hcmd as [-> | ->]; rewrite !elem_of_cons; tauto.
    + simpl. rewrite Hline, slice_argument. done.
  - reflexivity.
  - reflexivity.
  - reflexivity.
Qed.
(** ** Completion *)

Lemma HasPrefix_drop (s cmd : str) :
  HasPrefix s cmd = true -> s = cmd ++ drop (length cmd) s.
Proof. intros [r ->]%HasPrefix_spec. by rewrite drop_app_length. Qed.

Lemma forallb_notBrace (p : str) : forallb notBrace p = true <-> "}"%char ∉ p.
Proof.
  rewrite <- notBrace_Forall, Forall_forall, forallb_forall.
  split; intros H x Hx; apply H; by apply list_elem_of_In.
Qed.

(** The test that [findOpenArg] makes at each offset. *)
Lemma openHere (cmd s : str) :
  HasPrefix s cmd && forallb notBrace (drop (length cmd) s) = true
  <-> exists p : str, s = cmd ++ p /\ "}"%char ∉ p.
Proof.
  rewrite andb_true_iff, forallb_notBrace. split.
  - intros [Hp Hb]. exists (drop (length cmd) s). split; [by apply HasPrefix_drop|done].
  - intros (p & -> & Hb). rewrite drop_app_length. split; [|done].
    apply HasPrefix_spec. by exists p.
Qed.

Lemma findOpenArg_cons (cmd : str) (c : ascii) (s : str) :
  findOpenArg cmd (c :: s)
  = if HasPrefix (c :: s) cmd && forallb notBrace (drop (length cmd) (c :: s))
    then Some (drop (length cmd) (c :: s))
    else findOpenArg cmd s.
Proof. reflexivity. Qed.

(** [findOpenArg] finds the open argument of the text, and only that. *)
Lemma findOpenArg_openSpan (cmd s p : str) :
  findOpenArg cmd s = Some p <-> openSpan cmd s p.
Proof.
  split.
  - revert p. induction s as [|c s IH]; intros p.
    + simpl. destruct (HasPrefix [] cmd && _) eqn:Hhere; [|done].
      intros [= <-]. apply openHere in Hhere as (p & Hs & Hb).
      assert (Hd : drop (length cmd) [] = p) by (rewrite Hs; apply drop_app_length).
      rewrite Hd. exists []. split; [done|]. split; [done|]. intros; simpl; lia.
    + rewrite findOpenArg_cons.
      destruct (HasPrefix (c :: s) cmd && _) eqn:Hhere.
      * intros [= <-]. apply openHere in Hhere as (p & Hs & Hb).
        assert (Hd : drop (length cmd) (c :: s) = p)
          by (rewrite Hs; apply drop_app_length).
        rewrite Hd. exists []. split; [done|]. split; [done|]. intros; simpl; lia.
      * intros (pre & Hs & Hb & Hleft)%IH. exists (c :: pre).
        split; [by rewrite Hs|]. split; [done|].
        intros [|c' pre'] p' Hs' Hb'.
        -- assert (Htrue : HasPrefix (c :: s) cmd
                           && forallb notBrace (drop (length cmd) (c :: s)) = true)
             by (apply openHere; eauto).
           congruence.
        -- injection Hs' as <- Hs'. specialize (Hleft pre' p' Hs' Hb'). simpl. lia.
  - intros (pre & -> & Hb & Hleft). induction pre as [|c pre IH].
    + assert (Htrue : HasPrefix (cmd ++ p) cmd
                      && forallb notBrace (drop (length cmd) (cmd ++ p)) = true)
        by (apply openHere; eauto).
      simpl app. destruct (cmd ++ p) as [|c s] eqn:Hcp;
        [simpl|rewrite findOpenArg_cons]; rewrite Htrue, <- Hcp;
        by rewrite drop_app_length.
    + simpl app. rewrite findOpenArg_cons.
      destruct (HasPrefix _ cmd && _) eqn:Hhere.
      * apply openHere in Hhere as (p' & Hs' & Hb').
        specialize (Hleft [] p' Hs' Hb'). simpl in Hleft. lia.
      * apply IH. intros pre' p' Hs' Hb'.
        specialize (Hleft (c :: pre') p' (f_equal (cons c) Hs') Hb').
        simpl in Hleft. lia.
Qed.

Lemma findOpenArg_noOpenSpan (cmd s : str) :
  findOpenArg cmd s = None <-> noOpenSpan cmd s.
Proof.
  split.
  - intros Hnone pre p Hs.
    destruct (decide ("}"%char ∈ p)) as [|Hb]; [done|]. exfalso.
    revert s Hs Hnone. induction pre as [|c pre IH]; intros s Hs.
    + assert (Htrue : HasPrefix s cmd && forallb notBrace (drop (length cmd) s) = true)
        by (apply openHere; eauto).
      destruct s as [|c s]; [simpl|rewrite findOpenArg_cons]; by rewrite Htrue.
    + rewrite Hs. simpl app. rewrite findOpenArg_cons.
      destruct (HasPrefix _ cmd && _); [done|]. by apply IH.
  - intros Hno. destruct (findOpenArg cmd s) as [p|] eqn:Hfind; [|done].
    apply findOpenArg_openSpan in Hfind as (pre & Hs & Hb & _).
    by destruct (Hb (Hno pre p Hs)).
Qed.

Lemma filterByPrefix_nil (items : list server.CompletionItem) :
  server.filterByPrefix [] items = items.
Proof.
  unfold server.filterByPrefix.
  induction items as [|x items IH]; simpl in *; congruence.
Qed.

Lemma Index_All_elem (index : gmap str server.NoteHeader) (note : server.NoteHeader) :
  note ∈ server.Index_All index <-> exists slug, index !! slug = Some note.
Proof.
  unfold server.Index_All. rewrite list_elem_of_fmap. split.
  - intros ([slug n] & -> & Hin). exists slug. by apply elem_of_map_to_list.
  - intros (slug & Hs). exists (slug, note). split; [done|].
    by apply elem_of_map_to_list.
Qed.

Lemma filterByPrefix_refs (index : gmap str server.NoteHeader) (p : str) :
  server.filterByPrefix p (server.getRefCompletions index) = slugItems index p.
Proof.
  unfold server.filterByPrefix, server.getRefCompletions, slugItems.
  induction (server.Index_All index) as [|n l IH]; simpl; [done|].
  destruct (HasPrefix (server.Slug n) p); simpl; congruence.
Qed.

Lemma if_filterByPrefix (q : str) (items : list server.CompletionItem) :
  (if negb (isEmpty q) then server.filterByPrefix q items else items)
  = server.filterByPrefix q items.
Proof. destruct q; [by rewrite filterByPrefix_nil | done]. Qed.

Lemma nth_error_lookup {A : Type} (l : list A) (i : nat) : nth_error l i = l !! i.
Proof. revert i. induction l as [|x l IH]; intros [|i]; simpl; auto. Qed.

(** C3, as amended: in a managed document, let the open argument of a
    command in the text before the cursor be what follows the leftmost
    occurrence of the command after which no closing brace occurs.  When
    [\ref{] has the open argument [p], [\usepackage{] has none, and some
    indexed slug starts with [p], [Completion] returns exactly the items of
    the indexed notes whose slug starts with [p] (label and insert text the
    slug, detail the title); when [\usepackage{] has an open argument as
    well, the matching template names follow them; and when neither command
    has one it returns the fixed snippet completions. *)
Theorem completion_by_context (vault : server.Vault) (fs : server.FileSystem)
    (GetDocument : str -> option str) (index : gmap str server.NoteHeader)
    (uri content text : str) (line character : N) :
  server.IsManaged vault fs uri = Some true ->
  GetDocument uri = Some content ->
  Split content LF !! N.to_nat line = Some text ->
  N.to_nat character <= length text ->
  let linePrefix := take (N.to_nat character) text in
  let templateItems (q : str) :=
    server.filterByPrefix q (server.getTemplateCompletions vault fs) in
  let answers (items : list server.CompletionItem) :=
    server.Completion vault fs GetDocument index uri line character
    = Some {| server.IsIncomplete := false; server.Items := items |} in
  (forall p : str,
     openSpan "\ref{" linePrefix p -> noOpenSpan "\usepackage{" linePrefix ->
     slugItems index p <> [] -> answers (slugItems index p))
  /\ (forall p q : str,
        openSpan "\ref{" linePrefix p -> openSpan "\usepackage{" linePrefix q ->
        slugItems index p ++ templateItems q <> [] ->
        answers (slugItems index p ++ templateItems q))
  /\ (forall q : str,
        noOpenSpan "\ref{" linePrefix -> openSpan "\usepackage{" linePrefix q ->
        templateItems q <> [] -> answers (templateItems q))
  /\ (noOpenSpan "\ref{" linePrefix -> noOpenSpan "\usepackage{" linePrefix ->
      answers server.getSnippetCompletions)
  /\ forall (p : str) (item : server.CompletionItem),
       item ∈ slugItems index p <->
       exists (slug : str) (note : server.NoteHeader),
         index !! slug = Some note
         /\ HasPrefix (server.Slug note) p = true
         /\ item = {| server.Label := server.Slug note;
                      server.Kind := server.KindReference;
                      server.Detail := server.Title note;
                      server.InsertText := server.Slug note |}.
Proof.
  intros Hmanaged Hdoc Hline Hchar linePrefix templateItems answers.
  assert (Hanswer : answers (server.completeLinePrefix vault fs index linePrefix)).
  { unfold answers, server.Completion.
    rewrite Hmanaged, Hdoc, nth_error_lookup, Hline.
    replace (length text <? N.to_nat character)%nat with false
      by (symmetry; apply Nat.ltb_ge; lia).
    reflexivity. }
  unfold server.completeLinePrefix in Hanswer.
  split; [|split; [|split; [|split]]].
  - intros p Hp%findOpenArg_openSpan Hq%findOpenArg_noOpenSpan Hne.
    rewrite Hp, Hq, if_filterByPrefix, filterByPrefix_refs in Hanswer.
    by destruct (slugItems index p).
  - intros p q Hp%findOpenArg_openSpan Hq%findOpenArg_openSpan Hne.
    rewrite Hp, Hq, if_filterByPrefix, filterByPrefix_refs in Hanswer.
    replace (if negb (isEmpty q)
             then slugItems index p
                  ++ server.filterByPrefix q (server.getTemplateCompletions vault fs)
             else slugItems index p ++ server.getTemplateCompletions vault fs)
      with (slugItems index p ++ templateItems q) in Hanswer
      by (unfold templateItems; destruct q; [by rewrite filterByPrefix_nil | done]).
    by destruct (slugItems index p ++ templateItems q).
  - intros q Hp%findOpenArg_noOpenSpan Hq%findOpenArg_openSpan Hne.
    rewrite Hp, Hq in Hanswer. simpl app in Hanswer.
    rewrite if_filterByPrefix in Hanswer. fold (templateItems q) in Hanswer.
    by destruct (templateItems q).
  - intros Hp%findOpenArg_noOpenSpan Hq%findOpenArg_noOpenSpan.
    by rewrite Hp, Hq in Hanswer.
  - intros p item. unfold slugItems. rewrite list_elem_of_fmap. split.
    + intros (note & -> & Hin). apply list_elem_of_In, filter_In in Hin as [Hin Hp].
      apply list_elem_of_In, Index_All_elem in Hin as [slug Hslug]. eauto.
    + intros (slug & note & Hslug & Hp & ->). exists note. split; [done|].
      apply list_elem_of_In, filter_In. split; [|done].
      apply list_elem_of_In, Index_All_elem. eauto.
Qed.

Lemma completion_by_context_witness :
  server.IsManaged sample.vault sample.fs "file:///vault/notes/test.tex" = Some true
  /\ Split "See \ref{li" LF !! N.to_nat 0 = Some ("See \ref{li" : str)
  /\ N.to_nat 11 <= length ("See \ref{li" : str)
  /\ openSpan "\ref{" (take (N.to_nat 11) ("See \ref{li" : str)) "li"
  /\ noOpenSpan "\usepackage{" (take (N.to_nat 11) ("See \ref{li" : str))
  /\ slugItems sample.index "li"
     = [ server.referenceItem (sample.header "linear-algebra" "Linear Algebra") ]
  /\ server.Completion sample.vault sample.fs
       (fun _ => Some ("See \ref{li" : str)) sample.index
       "file:///vault/notes/test.tex" 0 11
     = Some {| server.IsIncomplete := false;
               server.Items := slugItems sample.index "li" |}.
Proof.
  assert (Hp : openSpan "\ref{" (take (N.to_nat 11) ("See \ref{li" : str)) "li")
    by (apply findOpenArg_openSpan; reflexivity).
  assert (Hq : noOpenSpan "\usepackage{" (take (N.to_nat 11) ("See \ref{li" : str)))
    by (apply findOpenArg_noOpenSpan; reflexivity).
  split; [reflexivity|]. split; [reflexivity|]. split; [simpl; lia|].
  split; [exact Hp|]. split; [exact Hq|]. split; [vm_compute; reflexivity|].
  refine (proj1 (completion_by_context sample.vault sample.fs
                   (fun _ => Some ("See \ref{li" : str)) sample.index
                   "file:///vault/notes/test.tex" "See \ref{li" "See \ref{li" 0 11
                   _ _ _ _) "li" Hp Hq _);
    [reflexivity | reflexivity | reflexivity | simpl; lia | by vm_compute].
Defined.

(** The sample request of the witness returns the one matching note. *)
Example completion_linear_algebra :
  server.Completion sample.vault sample.fs
    (fun _ => Some ("See \ref{li" : str)) sample.index
    "file:///vault/notes/test.tex" 0 11
  = Some {| server.IsIncomplete := false;
            server.Items :=
              [ server.referenceItem
                  (sample.header "linear-algebra" "Linear Algebra") ] |}.
Proof. vm_compute. reflexivity. Qed.

(** C3, as stated, fails where both spans are open: the text before the
    cursor ends with an open [\ref{] span (of argument [\usepackage{]), and
    the answer is a template name, which is no indexed slug. *)
Lemma completion_in_both_contexts :
  openSpan "\ref{" "\ref{\usepackage{" "\usepackage{"
  /\ slugItems sample.index "\usepackage{" = []
  /\ server.Completion sample.vault sample.fs
       (fun _ => Some ("\ref{\usepackage{" : str)) sample.index
       "file:///vault/notes/test.tex" 0 17
     = Some {| server.IsIncomplete := false;
               server.Items :=
                 [ {| server.Label := "base"; server.Kind := server.KindModule;
                      server.Detail := []; server.InsertText := "base" |} ] |}.
Proof.
  split; [apply findOpenArg_openSpan; reflexivity|].
  split; vm_compute; reflexivity.
Qed.

(** Where the open [\ref{] span matches no indexed slug, the snippet
    completions are returned although a completion context applies. *)
Example completion_snippets_without_match :
  openSpan "\ref{" "See \ref{zz" "zz"
  /\ noOpenSpan "\usepackage{" "See \ref{zz"
  /\ server.Completion sample.vault sample.fs
       (fun _ => Some ("See \ref{zz" : str)) sample.index
       "file:///vault/notes/test.tex" 0 11
     = Some {| server.IsIncomplete := false;
               server.Items := server.getSnippetCompletions |}.
Proof.
  split; [apply findOpenArg_openSpan; reflexivity|].
  split; [apply findOpenArg_noOpenSpan; reflexivity | vm_compute; reflexivity].
Qed.

(** Only the leftmost open argument counts: with two open [\ref{] spans the
    argument runs from the first one, and no slug starts with it. *)
Example completion_leftmost_span :
  openSpan "\ref{" "see \ref{x and \ref{gr" "x and \ref{gr"
  /\ server.Completion sample.vault sample.fs
       (fun _ => Some ("see \ref{x and \ref{gr" : str)) sample.index
       "file:///vault/notes/test.tex" 0 22
     = Some {| server.IsIncomplete := false;
               server.Items := server.getSnippetCompletions |}.
Proof.
  split; [apply findOpenArg_openSpan; reflexivity | vm_compute; reflexivity].
Qed.

(** ** Normalization of tags *)

Section Tags.
Context {U : Unicode}.

Lemma uniqueTags_cons (seen : list str) (x : str) (tags : list str) :
  metadata.uniqueTags seen (x :: tags) =
  if negb (isEmpty (tagKey x)) && negb (bool_decide (tagKey x ∈ seen))
  then x :: metadata.uniqueTags (tagKey x :: seen) tags
  else metadata.uniqueTags seen tags.
Proof. reflexivity. Qed.

Lemma firstSeenAfter_head (key : str -> str) (seen : list str) (x : str)
    (tags : list str) :
  firstSeenAfter key seen (x :: tags) 0
  = negb (isEmpty (key x)) && negb (bool_decide (key x ∈ seen)).
Proof. unfold firstSeenAfter. simpl. by rewrite app_nil_r. Qed.

Lemma firstSeenAfter_cons (seen seen' : list str) (x : str) (tags : list str)
    (i : nat) :
  (forall k : str, k <> [] -> k ∈ seen' <-> k ∈ seen \/ k = tagKey x) ->
  firstSeenAfter tagKey seen (x :: tags) (S i) = firstSeenAfter tagKey seen' tags i.
Proof.
  intros Hseen. unfold firstSeenAfter. simpl.
  destruct (tags !! i) as [tag|]; [|done].
  destruct (tagKey tag) as [|c k] eqn:Hk; [done|]. simpl. f_equal.
  apply bool_decide_ext.
  rewrite !elem_of_app, elem_of_cons, Hseen by done. tauto.
Qed.

Lemma uniqueTags_firstSeenAfter (tags : list str) :
  forall seen : list str,
    metadata.uniqueTags seen tags
    = omap (fun i => if firstSeenAfter tagKey seen tags i then tags !! i else None)
        (seq 0 (length tags)).
Proof.
  induction tags as [|x tags IH]; intros seen; [done|].
  simpl length. simpl seq. rewrite <- fmap_S_seq, uniqueTags_cons.
  assert (Htail : forall seen' : list str,
             (forall k : str, k <> [] -> k ∈ seen' <-> k ∈ seen \/ k = tagKey x) ->
             metadata.uniqueTags seen' tags
             = omap (fun i => if firstSeenAfter tagKey seen (x :: tags) i
                              then (x :: tags) !! i else None)
                 (S <$> seq 0 (length tags))).
  { intros seen' Hseen. rewrite IH. symmetry.
    apply list_omap_ext, Forall2_fmap_l, Forall_Forall2_diag, Forall_forall.
    intros i _. simpl. by rewrite (firstSeenAfter_cons seen seen'). }
  change (omap ?f (0 :: ?l))
    with (match f 0 with Some y => y :: omap f l | None => omap f l end).
  cbv beta. rewrite firstSeenAfter_head. change ((x :: tags) !! 0) with (Some x).
  destruct (negb (isEmpty (tagKey x)) && negb (bool_decide (tagKey x ∈ seen)))
    eqn:Hkeep.
  - f_equal. apply Htail. intros k _. rewrite elem_of_cons. tauto.
  - apply Htail. intros k Hne. split; [tauto|]. intros [?|Hk]; [done|].
    subst k. apply andb_false_iff in Hkeep as [Hblank|Hin].
    + by destruct (tagKey x).
    + by apply negb_false_iff, bool_decide_eq_true in Hin.
Qed.

Lemma uniqueTags_sublist (tags : list str) :
  forall seen : list str, sublist (metadata.uniqueTags seen tags) tags.
Proof.
  induction tags as [|x tags IH]; intros seen; [constructor|].
  rewrite uniqueTags_cons.
  destruct (_ && _); [apply sublist_skip | apply sublist_cons]; apply IH.
Qed.

Lemma uniqueTags_fresh (tags : list str) :
  forall (seen : list str) (tag : str),
    tag ∈ metadata.uniqueTags seen tags -> tagKey tag <> [] /\ tagKey tag ∉ seen.
Proof.
  induction tags as [|x tags IH]; intros seen tag; [by intros ?%elem_of_nil|].
  rewrite uniqueTags_cons.
  destruct (negb (isEmpty _) && _) eqn:Hkeep.
  - apply andb_true_iff in Hkeep as [Hne Hin].
    apply negb_true_iff, bool_decide_eq_false in Hin.
    intros [->|Htag]%elem_of_cons.
    + split; [|done]. by destruct (tagKey x).
    + apply IH in Htag as [? Hnot]. split; [done|].
      intros ?. apply Hnot. by right.
  - apply IH.
Qed.

Lemma uniqueTags_NoDup (tags : list str) :
  forall seen : list str, NoDup (map tagKey (metadata.uniqueTags seen tags)).
Proof.
  induction tags as [|x tags IH]; intros seen; [constructor|].
  rewrite uniqueTags_cons.
  destruct (negb (isEmpty _) && _); [|apply IH].
  simpl. constructor; [|apply IH].
  intros (tag & Hk & Htag)%list_elem_of_fmap.
  apply uniqueTags_fresh in Htag as [_ Hnot]. apply Hnot. rewrite <- Hk. by left.
Qed.

Lemma uniqueTags_covers (tags : list str) :
  forall (seen : list str) (tag : str),
    tag ∈ tags -> tagKey tag <> [] ->
    tagKey tag ∈ seen \/ tagKey tag ∈ map tagKey (metadata.uniqueTags seen tags).
Proof.
  induction tags as [|x tags IH]; intros seen tag; [by intros ?%elem_of_nil|].
  rewrite uniqueTags_cons.
  intros [->|Htag]%elem_of_cons Hne.
  - destruct (tagKey x) as [|c k] eqn:Hk; [done|]. simpl.
    destruct (bool_decide (c :: k ∈ seen)) eqn:Hin; simpl.
    + left. by apply bool_decide_eq_true in Hin.
    + right. rewrite Hk. by left.
  - destruct (negb (isEmpty (tagKey x)) && _) eqn:Hkeep.
    + destruct (IH (tagKey x :: seen) tag Htag Hne) as [[->|?]%elem_of_cons|?].
      * right. by left.
      * by left.
      * right. by right.
    + by apply IH.
Qed.

(** C9: [normalizeMetadata] keeps a tag exactly when its key, the tag in lower
    case and trimmed, is not blank and is the key of no earlier tag.  The tags
    so kept stand in their original order and casing, no two of them share a
    key, and every non-blank key of the input is the key of one of them.  The
    tags parsed from [math, physics, math, calculus, Physics] become [math],
    [physics], [calculus]. *)
Theorem normalizeMetadata_deduplicates (m : metadata.Metadata) :
  let tags := metadata.Tags m in
  let unique := metadata.Tags (metadata.normalizeMetadata m) in
  unique
  = omap (fun i => if firstSeen tagKey tags i then tags !! i else None)
      (seq 0 (length tags))
  /\ sublist unique tags
  /\ NoDup (map tagKey unique)
  /\ (forall tag : str,
        tag ∈ tags -> tagKey tag <> [] -> tagKey tag ∈ map tagKey unique)
  /\ metadata.Tags
       (metadata.Meta
          (fst (metadata.Parse false
                  ("%% Metadata" ++ [LF] ++ "%% title: Test" ++ [LF]
                   ++ "%% date: 2024-01-15" ++ [LF]
                   ++ "%% tags: math, physics, math, calculus, Physics" ++ [LF]
                   ++ [LF] ++ "\documentclass{article}"))))
     = ["math" : str; "physics" : str; "calculus" : str].
Proof.
  cbv zeta. change (metadata.Tags (metadata.normalizeMetadata m))
    with (metadata.uniqueTags [] (metadata.Tags m)).
  split; [|split; [|split; [|split]]].
  - apply uniqueTags_firstSeenAfter.
  - apply uniqueTags_sublist.
  - apply uniqueTags_NoDup.
  - intros tag Htag Hne.
    destruct (uniqueTags_covers _ [] tag Htag Hne) as [?%elem_of_nil|?]; done.
  - vm_compute. reflexivity.
Qed.

End Tags.

(** ** White space *)

Lemma spaceRunes_nonempty : Forall (fun p : str => p <> []) spaceRunes.
Proof. unfold spaceRunes. simpl. repeat constructor; discriminate. Qed.

(** A white-space rune is one ASCII byte or a sequence of bytes that are
    all outside ASCII. *)
Lemma spaceRunes_shape :
  Forall (fun p : str => length p = 1 \/ Forall (fun b => isASCII b = false) p)
    spaceRunes.
Proof.
  unfold spaceRunes. simpl.
  repeat (constructor; [first [by left | right; by repeat constructor]|]).
  constructor.
Qed.

Lemma find_spaceRunes_None (test : str -> bool) :
  match List.find test spaceRunes with Some p => length p | None => 0 end = 0
  <-> forall p, p ∈ spaceRunes -> test p = false.
Proof.
  destruct (List.find test spaceRunes) as [p|] eqn:Hfind.
  - apply find_some in Hfind as [Hin Hp]. split.
    + intros Hlen. pose proof spaceRunes_nonempty as Hne.
      rewrite Forall_forall in Hne. apply list_elem_of_In, Hne in Hin.
      by destruct p.
    + intros H. apply list_elem_of_In, H in Hin. congruence.
  - split; [|done]. intros _ p Hp.
    apply (find_none _ _ Hfind). by apply list_elem_of_In.
Qed.

Lemma leadingSpace_0 (s : str) :
  leadingSpace s = 0 <-> forall p, p ∈ spaceRunes -> HasPrefix s p = false.
Proof. apply find_spaceRunes_None. Qed.

Lemma trailingSpace_0 (s : str) :
  trailingSpace s = 0 <-> forall p, p ∈ spaceRunes -> HasSuffix s p = false.
Proof. apply find_spaceRunes_None. Qed.

Lemma leadingSpace_le (s : str) : leadingSpace s <= length s.
Proof.
  unfold leadingSpace. destruct (List.find _ _) as [p|] eqn:Hfind; [|lia].
  apply find_some in Hfind as [_ [r ->]%HasPrefix_spec]. rewrite length_app. lia.
Qed.

Lemma trailingSpace_le (s : str) : trailingSpace s <= length s.
Proof.
  unfold trailingSpace. destruct (List.find _ _) as [p|] eqn:Hfind; [|lia].
  apply find_some in Hfind as [_ [r ->]%HasSuffix_spec]. rewrite length_app. lia.
Qed.

Lemma trimLeftLoop_length (fuel : nat) :
  forall s : str,
    length (trimLeftLoop fuel s) <= length s
    /\ (fuel <> 0 -> leadingSpace s <> 0 -> length (trimLeftLoop fuel s) < length s).
Proof.
  induction fuel as [|k IH]; intros s; simpl; [lia|].
  pose proof (leadingSpace_le s) as Hle.
  destruct (leadingSpace s) as [|n] eqn:Hn; [lia|].
  destruct (IH (drop (S n) s)) as [Hlen _]. rewrite length_drop in Hlen. lia.
Qed.

Lemma trimRightLoop_length (fuel : nat) :
  forall s : str,
    length (trimRightLoop fuel s) <= length s
    /\ (fuel <> 0 -> trailingSpace s <> 0 -> length (trimRightLoop fuel s) < length s).
Proof.
  induction fuel as [|k IH]; intros s; simpl; [lia|].
  pose proof (trailingSpace_le s) as Hle.
  destruct (trailingSpace s) as [|n] eqn:Hn; [lia|].
  destruct (IH (take (length s - S n) s)) as [Hlen _].
  rewrite length_take in Hlen. lia.
Qed.

Lemma leadingSpace_nil : leadingSpace [] = 0.
Proof. reflexivity. Qed.

Lemma trailingSpace_nil : trailingSpace [] = 0.
Proof. reflexivity. Qed.

Lemma TrimLeftSpace_fix (s : str) : TrimLeftSpace s = s <-> leadingSpace s = 0.
Proof.
  unfold TrimLeftSpace. split.
  - intros Heq. destruct s as [|c s]; [done|].
    destruct (leadingSpace (c :: s)) eqn:Hn; [done|].
    destruct (trimLeftLoop_length (length (c :: s)) (c :: s)) as [_ Hlt].
    rewrite Heq, Hn in Hlt. simpl in Hlt. lia.
  - intros Hn. destruct (length s); simpl; [done|]. by rewrite Hn.
Qed.

Lemma TrimRightSpace_fix (s : str) : TrimRightSpace s = s <-> trailingSpace s = 0.
Proof.
  unfold TrimRightSpace. split.
  - intros Heq. destruct s as [|c s]; [done|].
    destruct (trailingSpace (c :: s)) eqn:Hn; [done|].
    destruct (trimRightLoop_length (length (c :: s)) (c :: s)) as [_ Hlt].
    rewrite Heq, Hn in Hlt. simpl in Hlt. lia.
  - intros Hn. destruct (length s); simpl; [done|]. by rewrite Hn.
Qed.

(** A string is its own [TrimSpace] exactly when neither its first nor its
    last rune is white space. *)
Lemma TrimSpace_fix (s : str) :
  TrimSpace s = s <-> leadingSpace s = 0 /\ trailingSpace s = 0.
Proof.
  unfold TrimSpace. split.
  - intros Heq.
    assert (Hl : leadingSpace s = 0).
    { destruct (leadingSpace s) eqn:Hn; [done|]. exfalso.
      destruct s as [|c s]; [done|].
      destruct (trimLeftLoop_length (length (c :: s)) (c :: s)) as [_ Hlt].
      destruct (trimRightLoop_length (length (TrimLeftSpace (c :: s)))
                  (TrimLeftSpace (c :: s))) as [Hle _].
      fold (TrimRightSpace (TrimLeftSpace (c :: s))) in Hle.
      fold (TrimLeftSpace (c :: s)) in Hlt.
      rewrite Heq in Hle. rewrite Hn in Hlt. simpl in Hlt, Hle. lia. }
    split; [done|]. apply TrimLeftSpace_fix in Hl. rewrite Hl in Heq.
    by apply TrimRightSpace_fix.
  - intros [Hl Hr]. apply TrimLeftSpace_fix in Hl. rewrite Hl.
    by apply TrimRightSpace_fix.
Qed.

Lemma elem_of_rev {A : Type} (x : A) (l : list A) : x ∈ rev l <-> x ∈ l.
Proof. rewrite !list_elem_of_In. symmetry. apply in_rev. Qed.

Lemma HasPrefix_app_inv (t r p : str) :
  HasPrefix (t ++ r) p = true ->
  HasPrefix t p = true
  \/ exists p2 : str, p2 <> [] /\ p = t ++ p2 /\ HasPrefix r p2 = true.
Proof.
  revert p. induction t as [|c t IH]; intros p Hp.
  - destruct p as [|d p]; [by left|]. right. by exists (d :: p).
  - destruct p as [|d p]; [by left|]. simpl in Hp.
    apply andb_true_iff in Hp as [Hc Hp]. apply Ascii.eqb_eq in Hc as ->.
    destruct (IH p Hp) as [Ht|(p2 & Hne & -> & Hr)].
    + left. simpl. by rewrite Ascii.eqb_refl.
    + right. by exists p2.
Qed.

(** Appending text that starts with an ASCII byte does not make a string
    start with white space. *)
Lemma leadingSpace_app (t r : str) :
  t <> [] -> leadingSpace t = 0 ->
  (forall c r', r = c :: r' -> isASCII c = true) ->
  leadingSpace (t ++ r) = 0.
Proof.
  intros Hne Ht Hr. apply leadingSpace_0. intros p Hp.
  destruct (HasPrefix (t ++ r) p) eqn:Hpre; [exfalso|done].
  apply HasPrefix_app_inv in Hpre as [Hpre|(p2 & Hp2 & -> & Hpre)].
  - rewrite leadingSpace_0 in Ht. by rewrite (Ht p Hp) in Hpre.
  - pose proof spaceRunes_shape as Hshape. rewrite Forall_forall in Hshape.
    destruct (Hshape _ Hp) as [Hlen|Hall].
    + rewrite length_app in Hlen. destruct t, p2; simpl in Hlen; try done; lia.
    + destruct p2 as [|c p2]; [done|]. destruct r as [|d r]; [done|].
      simpl in Hpre. apply andb_true_iff in Hpre as [Hc _].
      apply Ascii.eqb_eq in Hc as ->.
      apply Forall_app in Hall as [_ Hall]. apply Forall_cons in Hall as [Hc _].
      rewrite (Hr c r eq_refl) in Hc. done.
Qed.

(** Putting a string behind text that ends with an ASCII byte does not make
    it end with white space. *)
Lemma trailingSpace_app (a t : str) :
  t <> [] -> trailingSpace t = 0 ->
  (forall a' c, a = a' ++ [c] -> isASCII c = true) ->
  trailingSpace (a ++ t) = 0.
Proof.
  intros Hne Ht Ha. apply trailingSpace_0. intros p Hp.
  destruct (HasSuffix (a ++ t) p) eqn:Hsuf; [exfalso|done].
  unfold HasSuffix in Hsuf. rewrite rev_app_distr in Hsuf.
  apply HasPrefix_app_inv in Hsuf as [Hsuf|(p2 & Hp2 & Heq & Hsuf)].
  - rewrite trailingSpace_0 in Ht. specialize (Ht p Hp).
    unfold HasSuffix in Ht. congruence.
  - pose proof spaceRunes_shape as Hshape. rewrite Forall_forall in Hshape.
    destruct (Hshape _ Hp) as [Hlen|Hall].
    + rewrite <- length_rev, Heq, length_app, length_rev in Hlen.
      destruct t, p2; simpl in Hlen; try done; lia.
    + destruct p2 as [|c p2]; [done|].
      destruct (rev a) as [|d ra] eqn:Hra; [done|].
      simpl in Hsuf. apply andb_true_iff in Hsuf as [Hc _].
      apply Ascii.eqb_eq in Hc as ->.
      assert (Hin : c ∈ p).
      { apply elem_of_rev. rewrite Heq. apply elem_of_app. right. by left. }
      rewrite Forall_forall in Hall. specialize (Hall _ Hin).
      rewrite (Ha (rev ra) c) in Hall; [done|].
      rewrite <- (rev_involutive a), Hra. done.
Qed.

Lemma isASCIISpace_rune (c : ascii) : isASCIISpace c = true -> [c] ∈ spaceRunes.
Proof.
  destruct c as [[] [] [] [] [] [] [] []]; try discriminate; intros _;
    apply list_elem_of_In; vm_compute; tauto.
Qed.

Lemma leadingSpace_head (c : ascii) (s : str) :
  leadingSpace (c :: s) = 0 -> isASCIISpace c = false.
Proof.
  intros H. destruct (isASCIISpace c) eqn:Hc; [|done].
  rewrite leadingSpace_0 in H. specialize (H [c] (isASCIISpace_rune c Hc)).
  simpl in H. by rewrite Ascii.eqb_refl in H.
Qed.

Lemma trailingSpace_last (s : str) (c : ascii) :
  trailingSpace (s ++ [c]) = 0 -> isASCIISpace c = false.
Proof.
  intros H. destruct (isASCIISpace c) eqn:Hc; [|done].
  rewrite trailingSpace_0 in H. specialize (H [c] (isASCIISpace_rune c Hc)).
  unfold HasSuffix in H. rewrite rev_app_distr in H. simpl in H.
  by rewrite Ascii.eqb_refl in H.
Qed.

Lemma spaceRunes_single (c : ascii) : [c] ∈ spaceRunes -> isASCIISpace c = true.
Proof.
  intros Hp. apply list_elem_of_In in Hp. vm_compute in Hp.
  repeat (destruct Hp as [Hp|Hp]; [by (injection Hp as <-) || discriminate Hp|]).
  done.
Qed.

(** A string that starts with an ASCII byte other than white space does not
    start with a white-space rune, and likewise at its end. *)
Lemma leadingSpace_plain (c : ascii) (s : str) :
  isASCII c = true -> isASCIISpace c = false -> leadingSpace (c :: s) = 0.
Proof.
  intros Hc Hs. apply leadingSpace_0. intros p Hp.
  destruct (HasPrefix (c :: s) p) eqn:Hpre; [exfalso|done].
  pose proof spaceRunes_shape as Hshape. rewrite Forall_forall in Hshape.
  pose proof spaceRunes_nonempty as Hne. rewrite Forall_forall in Hne.
  destruct p as [|d p]; [by apply (Hne [])|].
  simpl in Hpre. apply andb_true_iff in Hpre as [Hd _].
  apply Ascii.eqb_eq in Hd as <-.
  destruct (Hshape _ Hp) as [Hlen|Hall].
  - destruct p; [|done]. apply spaceRunes_single in Hp. congruence.
  - apply Forall_cons in Hall as [Hall _]. congruence.
Qed.

Lemma trailingSpace_plain (s : str) (c : ascii) :
  isASCII c = true -> isASCIISpace c = false -> trailingSpace (s ++ [c]) = 0.
Proof.
  intros Hc Hs. apply trailingSpace_0. intros p Hp.
  destruct (HasSuffix (s ++ [c]) p) eqn:Hsuf; [exfalso|done].
  unfold HasSuffix in Hsuf. rewrite rev_app_distr in Hsuf. simpl in Hsuf.
  pose proof spaceRunes_shape as Hshape. rewrite Forall_forall in Hshape.
  pose proof spaceRunes_nonempty as Hne. rewrite Forall_forall in Hne.
  destruct (rev p) as [|d rp] eqn:Hrp.
  { apply (Hne p Hp). by rewrite <- (rev_involutive p), Hrp. }
  simpl in Hsuf. apply andb_true_iff in Hsuf as [Hd _].
  apply Ascii.eqb_eq in Hd as <-.
  destruct (Hshape _ Hp) as [Hlen|Hall].
  - destruct p as [|x [|y p]]; try done. simpl in Hrp. injection Hrp as -> _.
    apply spaceRunes_single in Hp. congruence.
  - assert (Hin : c ∈ p) by (apply elem_of_rev; rewrite Hrp; by left).
    rewrite Forall_forall in Hall. specialize (Hall _ Hin). congruence.
Qed.

Lemma TrimLeftSpace_space (s : str) :
  TrimLeftSpace (" "%char :: s) = TrimLeftSpace s.
Proof. reflexivity. Qed.

Lemma TrimSpace_space (s : str) : TrimSpace (" "%char :: s) = TrimSpace s.
Proof. unfold TrimSpace. by rewrite TrimLeftSpace_space. Qed.

Lemma isReSpace_isASCIISpace (c : ascii) :
  isReSpace c = true -> isASCIISpace c = true.
Proof. destruct c as [[] [] [] [] [] [] [] []]; by vm_compute. Qed.

Lemma dropWhile_isReSpace (s : str) :
  leadingSpace s = 0 -> dropWhile isReSpace s = s.
Proof.
  destruct s as [|c s]; [done|]. intros H%leadingSpace_head. simpl.
  destruct (isReSpace c) eqn:Hc; [|done].
  apply isReSpace_isASCIISpace in Hc. congruence.
Qed.

Lemma HasSuffix_single (a t : str) (c : ascii) :
  t <> [] -> HasSuffix (a ++ t) [c] = HasSuffix t [c].
Proof.
  intros Hne. unfold HasSuffix. rewrite rev_app_distr.
  destruct (rev t) as [|d rt] eqn:Hrt; [|done].
  exfalso. apply Hne. by rewrite <- (rev_involutive t), Hrt.
Qed.

(** A trimmed, non-empty string does not end with a carriage return. *)
Lemma dropCR_trimmed (a t : str) :
  t <> [] -> trailingSpace t = 0 -> dropCR (a ++ t) = a ++ t.
Proof.
  intros Hne Ht. unfold dropCR. rewrite HasSuffix_single by done.
  rewrite trailingSpace_0 in Ht. rewrite (Ht [CR]); [done|].
  apply list_elem_of_In. vm_compute. tauto.
Qed.

(** ** Header lines *)

Section HeaderLines.
Import metadata.

Lemma last_byte_ascii (a a' : str) (c : ascii) :
  forallb isASCII a = true -> a = a' ++ [c] -> isASCII c = true.
Proof.
  intros Ha ->. rewrite forallb_app in Ha.
  apply andb_true_iff in Ha as [_ Hc]. simpl in Hc. by destruct (isASCII c).
Qed.

Lemma trailingSpace_app_ascii (a t : str) :
  forallb isASCII a = true -> t <> [] -> trailingSpace t = 0 ->
  trailingSpace (a ++ t) = 0.
Proof.
  intros Ha Hne Ht. apply trailingSpace_app; [done..|].
  intros a' c. by apply last_byte_ascii.
Qed.

(** Text that starts with an ASCII byte other than white space, goes on in
    ASCII and ends with a trimmed string is trimmed. *)
Lemma TrimSpace_app_ascii (c : ascii) (a t : str) :
  isASCII c = true -> isASCIISpace c = false -> forallb isASCII a = true ->
  t <> [] -> trailingSpace t = 0 ->
  TrimSpace (c :: a ++ t) = c :: a ++ t.
Proof.
  intros Hc Hs Ha Hne Ht. apply TrimSpace_fix. split.
  - by apply leadingSpace_plain.
  - apply (trailingSpace_app_ascii (c :: a) t); [|done..].
    simpl. by rewrite Hc.
Qed.

Lemma stripPercentLoop_S (fuel : nat) (s : str) :
  stripPercentLoop (S fuel) s
  = if HasPrefix s "%" then stripPercentLoop fuel (TrimSpace (TrimPrefix s "%"))
    else s.
Proof. reflexivity. Qed.

Lemma stripPercentLoop_done (fuel : nat) (s : str) :
  HasPrefix s "%" = false -> stripPercentLoop fuel s = s.
Proof. intros H. destruct fuel; simpl; [done|]. simpl in H. by rewrite H. Qed.

(** The comment markers of a line [%% body] are stripped down to [body]. *)
Lemma stripPercent_comment (body : str) :
  body <> [] -> TrimSpace body = body -> HasPrefix body "%" = false ->
  TrimSpace ("%% " ++ body) = "%% " ++ body
  /\ stripPercent ("%% " ++ body) = body.
Proof.
  intros Hne Htrim Hpct. apply TrimSpace_fix in Htrim as Hfix.
  destruct Hfix as [_ Hr].
  assert (H2 : TrimSpace ("%% " ++ body) = "%% " ++ body)
    by (by apply (TrimSpace_app_ascii "%" "% " body)).
  assert (H1 : TrimSpace ("% " ++ body) = "% " ++ body)
    by (by apply (TrimSpace_app_ascii "%" " " body)).
  split; [done|].
  unfold stripPercent.
  change (length ("%% " ++ body)) with (S (S (S (length body)))).
  rewrite stripPercentLoop_S.
  change (HasPrefix ("%% " ++ body) "%") with true. cbv iota.
  change (TrimPrefix ("%% " ++ body) "%") with ("% " ++ body).
  rewrite H1, stripPercentLoop_S.
  change (HasPrefix ("% " ++ body) "%") with true. cbv iota.
  change (TrimPrefix ("% " ++ body) "%") with (" "%char :: body).
  rewrite TrimSpace_space, Htrim.
  by apply stripPercentLoop_done.
Qed.

Lemma dropWhile_app (p : ascii -> bool) (a : str) (c : ascii) (r : str) :
  Forall (fun x => p x = true) a -> p c = false ->
  dropWhile p (a ++ c :: r) = c :: r.
Proof.
  intros Ha Hc. induction Ha as [|x a Hx _ IH]; simpl; [by rewrite Hc|].
  by rewrite Hx.
Qed.

Lemma not_elem_existsb (c : ascii) (s : str) :
  c ∉ s -> existsb (Ascii.eqb c) s = false.
Proof.
  induction s as [|d s IH]; [done|]. intros [Hd Hs]%not_elem_of_cons. simpl.
  destruct (Ascii.eqb_spec c d); [done|]. by apply IH.
Qed.

(** The pattern of a metadata line on [name: value]. *)
Lemma matchFieldLine_field (name value : str) :
  name <> [] -> forallb isWordByte name = true ->
  leadingSpace value = 0 -> LF ∉ value ->
  matchFieldLine (name ++ ": " ++ value) = Some (name, value).
Proof.
  intros Hne Hword Hlead Hlf. unfold matchFieldLine.
  change (name ++ ": " ++ value) with (name ++ ":"%char :: " "%char :: value).
  assert (Hall : Forall (fun x => isWordByte x = true) name).
  { apply Forall_forall. intros x Hx. rewrite forallb_forall in Hword.
    by apply Hword, list_elem_of_In. }
  rewrite takeWhile_app, dropWhile_app by done.
  destruct name as [|n0 name]; [done|].
  simpl. rewrite dropWhile_isReSpace by done.
  by rewrite not_elem_existsb.
Qed.

Lemma fieldValue_spaces (v : str) :
  fieldValue v -> v <> [] /\ leadingSpace v = 0 /\ trailingSpace v = 0 /\ LF ∉ v.
Proof. intros (Hne & Htrim & Hlf). apply TrimSpace_fix in Htrim as [? ?]. done. Qed.

Lemma not_elem_app (c : ascii) (a b : str) : c ∉ a -> c ∉ b -> c ∉ a ++ b.
Proof. intros Ha Hb [?|?]%elem_of_app; done. Qed.

(** A line [%% name: value]: it is trimmed, a comment, no header of a
    block, and splits into its field and its value. *)
Lemma field_line (name value : str) :
  name <> [] -> forallb isWordByte name = true -> fieldValue value ->
  let line := "%% " ++ name ++ ": " ++ value in
  TrimSpace line = line
  /\ (LF ∉ line)
  /\ dropCR line = line
  /\ matchFieldLine (stripPercent line) = Some (name, value).
Proof.
  intros Hne Hword (Hv & Hlead & Htrail & Hlf)%fieldValue_spaces. cbv zeta.
  assert (Hascii : forallb isASCII name = true).
  { rewrite forallb_forall in Hword |- *. intros x Hx. specialize (Hword x Hx).
    revert Hword. clear. destruct x as [[] [] [] [] [] [] [] []]; by vm_compute. }
  assert (Hbody : TrimSpace (name ++ ": " ++ value) = name ++ ": " ++ value).
  { destruct name as [|n0 name]; [done|].
    simpl in Hword, Hascii. apply andb_true_iff in Hword as [Hn0 _].
    apply andb_true_iff in Hascii as [Ha0 Ha].
    rewrite app_assoc.
    apply (TrimSpace_app_ascii n0 (name ++ ": ") value); try done.
    - revert Hn0. clear. destruct n0 as [[] [] [] [] [] [] [] []]; by vm_compute.
    - rewrite forallb_app, Ha. done. }
  assert (Hpct : HasPrefix (name ++ ": " ++ value) "%" = false).
  { destruct name as [|n0 name]; [done|]. simpl in Hword |- *.
    apply andb_true_iff in Hword as [Hn0 _].
    destruct (Ascii.eqb_spec n0 "%") as [->|]; [discriminate|done]. }
  assert (Hnonempty : name ++ ": " ++ value <> []) by (by destruct name).
  destruct (stripPercent_comment _ Hnonempty Hbody Hpct) as [Htrim Hstrip].
  split; [done|]. split; [|split].
  - assert (Hname : LF ∉ name).
    { intros Hin. rewrite forallb_forall in Hword.
      apply list_elem_of_In, Hword in Hin. discriminate. }
    assert (Hlit : forall lit : str, forallb isASCII lit = true ->
                     existsb (Ascii.eqb LF) lit = false -> LF ∉ lit).
    { intros lit _ Hex Hin. apply list_elem_of_In in Hin.
      assert (Hex' : existsb (Ascii.eqb LF) lit = true); [|congruence].
      apply existsb_exists. exists LF. split; [done | apply Ascii.eqb_refl]. }
    apply (not_elem_app LF "%% "); [by apply Hlit|].
    apply not_elem_app; [done|]. apply (not_elem_app LF ": "); [by apply Hlit|done].
  - rewrite !app_assoc. apply dropCR_trimmed; done.
  - rewrite Hstrip. by apply matchFieldLine_field.
Qed.

Context {U : Unicode}.

Lemma Join_cons (t t' : str) (ts : list str) (sep : str) :
  Join (t :: t' :: ts) sep = t ++ sep ++ Join (t' :: ts) sep.
Proof. reflexivity. Qed.

Lemma Join_nonempty (t : str) (ts : list str) (sep : str) :
  t <> [] -> Join (t :: ts) sep <> [].
Proof. intros Hne. destruct ts; [done|]. rewrite Join_cons. by destruct t. Qed.

(** The joined tags form a value that a line carries verbatim. *)
Lemma Join_fieldValue (t : str) (ts : list str) :
  Forall tagValue (t :: ts) -> fieldValue (Join (t :: ts) ", ").
Proof.
  revert t. induction ts as [|t' ts IH]; intros t Htags.
  - apply Forall_cons in Htags as [[Ht _] _]. done.
  - apply Forall_cons in Htags as [[Ht Hcomma] Htags].
    specialize (IH t' Htags). rewrite Join_cons.
    apply fieldValue_spaces in Ht as (Hne & Hl & Hr & Hlf).
    apply fieldValue_spaces in IH as (Hne' & Hl' & Hr' & Hlf').
    split; [by destruct t|]. split.
    + apply TrimSpace_fix. split.
      * apply leadingSpace_app; [done..|]. by intros c r' [= <- _].
      * rewrite app_assoc. apply trailingSpace_app; [done..|].
        intros a' c Heq.
        change (list_ascii_of_string ", ") with ([","%char] ++ [" "%char]) in Heq.
        rewrite app_assoc in Heq. by apply app_inj_tail in Heq as [_ <-].
    + apply not_elem_app; [done|]. apply (not_elem_app LF ", "); [|done].
      intros Hin. apply list_elem_of_In in Hin. simpl in Hin.
      by destruct Hin as [|[|[]]].
Qed.

Lemma Split_Join (t : str) (ts : list str) :
  Forall tagValue (t :: ts) ->
  Split (Join (t :: ts) ", ") "," = t :: map (fun x => " "%char :: x) ts.
Proof.
  revert t. induction ts as [|t' ts IH]; intros t Htags.
  - apply Forall_cons in Htags as [[_ Hcomma] _]. by apply Split_no_sep.
  - apply Forall_cons in Htags as [[_ Hcomma] Htags]. rewrite Join_cons.
    change (t ++ ", " ++ Join (t' :: ts) ", ")
      with (t ++ ","%char :: " "%char :: Join (t' :: ts) ", ").
    rewrite Split_app by done. f_equal.
    specialize (IH t' Htags). rewrite Split_cons, IH. reflexivity.
Qed.

Lemma splitTags_Join (tags : list str) :
  Forall tagValue tags -> splitTags (Join tags ", ") = tags.
Proof.
  destruct tags as [|t ts]; [done|]. intros Htags. unfold splitTags.
  pose proof (Join_fieldValue t ts Htags) as (Hne & _).
  destruct (Join (t :: ts) ", ") as [|c j] eqn:Hj; [done|]. simpl isEmpty. cbv iota.
  rewrite <- Hj, Split_Join by done. clear Hj Hne c j.
  assert (Hall : forall l : list str, Forall tagValue l ->
            List.filter (fun x : str => negb (isEmpty x))
              (map TrimSpace (map (fun x => " "%char :: x) l)) = l).
  { induction l as [|x l IH]; [done|]. intros [[(Hx & Htrim & _) _] Hl]%Forall_cons.
    simpl. rewrite TrimSpace_space, Htrim, IH by done. by destruct x. }
  apply Forall_cons in Htags as [[(Ht & Htrim & _) _] Hts].
  simpl. rewrite Htrim, Hall by done. by destruct t.
Qed.

(** What [parseMetadataLine] does on the three lines that [Format] writes. *)
Lemma parse_title_line (strict : bool) (title : str) (lineNum : nat)
    (result : ParseResult) :
  fieldValue title -> Title (Meta result) = [] ->
  parseMetadataLine strict ("%% title: " ++ title) lineNum result
  = (setTitle title result, None).
Proof.
  intros Hv Hfirst.
  destruct (field_line "title" title) as (Htrim & _ & _ & Hmatch); [done..|].
  change ("%% " ++ "title" ++ ": " ++ title) with ("%% title: " ++ title) in *.
  unfold parseMetadataLine. rewrite Htrim, Hmatch.
  destruct Hv as (Hne & Hv & _). rewrite Hv.
  change (strEq (ToLower (TrimSpace "title")) "title") with true. cbv iota.
  rewrite Hfirst. simpl. clear Htrim Hmatch Hv.
  destruct title as [|c title]; [by elim Hne | reflexivity].
Qed.

Lemma parse_date_line (strict : bool) (date : str) (lineNum : nat)
    (result : ParseResult) :
  fieldValue date -> Date (Meta result) = [] ->
  parseMetadataLine strict ("%% date: " ++ date) lineNum result
  = match validateDate date with
    | Some err =>
        (setDate date
           (addError {| Line := lineNum; Field := "date"; Message := err |} result),
         if strict then Some err else None)
    | None => (setDate date result, None)
    end.
Proof.
  intros Hv Hfirst.
  destruct (field_line "date" date) as (Htrim & _ & _ & Hmatch); [done..|].
  change ("%% " ++ "date" ++ ": " ++ date) with ("%% date: " ++ date) in *.
  unfold parseMetadataLine. rewrite Htrim, Hmatch.
  destruct Hv as (Hne & Hv & _). rewrite Hv.
  change (strEq (ToLower (TrimSpace "date")) "title") with false.
  change (strEq (ToLower (TrimSpace "date")) "date") with true. cbv iota.
  rewrite Hfirst. reflexivity.
Qed.

Lemma parse_tags_line (strict : bool) (tags : list str) (lineNum : nat)
    (result : ParseResult) :
  Forall tagValue tags -> Tags (Meta result) = [] ->
  parseMetadataLine strict
    (if isEmpty tags then "%% tags: " else "%% tags: " ++ Join tags ", ")
    lineNum result
  = (addTags tags result, None).
Proof.
  intros Htags Hfirst. destruct tags as [|t ts].
  - unfold parseMetadataLine. simpl isEmpty at 1. cbv iota.
    change (matchFieldLine (stripPercent (TrimSpace "%% tags: ")))
      with (Some ("tags" : str, [] : str)).
    cbv iota beta.
    change (strEq (ToLower (TrimSpace "tags")) "title") with false.
    change (strEq (ToLower (TrimSpace "tags")) "date") with false.
    change (strEq (ToLower (TrimSpace "tags")) "tags") with true. cbv iota.
    rewrite Hfirst. reflexivity.
  - simpl isEmpty at 1. cbv iota.
    pose proof (Join_fieldValue t ts Htags) as Hv.
    destruct (field_line "tags" (Join (t :: ts) ", ")) as (Htrim & _ & _ & Hmatch);
      [done..|].
    change ("%% " ++ "tags" ++ ": " ++ Join (t :: ts) ", ")
      with ("%% tags: " ++ Join (t :: ts) ", ") in *.
    unfold parseMetadataLine. rewrite Htrim, Hmatch.
    destruct Hv as (Hne & Hv & _). rewrite Hv.
    change (strEq (ToLower (TrimSpace "tags")) "title") with false.
    change (strEq (ToLower (TrimSpace "tags")) "date") with false.
    change (strEq (ToLower (TrimSpace "tags")) "tags") with true. cbv iota.
    rewrite Hfirst, splitTags_Join by exact Htags. reflexivity.
Qed.

Lemma extractLoop_cons (i : nat) (line : str) (rest : list str)
    (inMetadata : bool) (startLine : nat) (metadataLines : list str) :
  extractLoop i (line :: rest) inMetadata startLine metadataLines
  = if negb inMetadata
       && (EqualFold (stripPercent (TrimSpace line)) "Metadata"
           || HasPrefix (ToLower (stripPercent (TrimSpace line))) "metadata")
    then extractLoop (S i) rest true i (metadataLines ++ [line])
    else if inMetadata then
      if negb (HasPrefix (TrimSpace line) "%") then (metadataLines, startLine)
      else extractLoop (S i) rest inMetadata startLine (metadataLines ++ [line])
    else extractLoop (S i) rest inMetadata startLine metadataLines.
Proof. reflexivity. Qed.

Lemma parseLoop_cons (strict : bool) (line : str) (rest : list str)
    (lineNum : nat) (result : ParseResult) :
  parseLoop strict (line :: rest) lineNum result
  = if isEmpty (TrimSpace line) || HasPrefix (TrimSpace line) "%% Metadata"
       || HasPrefix (TrimSpace line) "% Metadata"
    then parseLoop strict rest (S lineNum) result
    else
      match parseMetadataLine strict line (S lineNum) result with
      | (result', Some err) =>
          if strict then (result', Some err)
          else parseLoop strict rest (S lineNum) result'
      | (result', None) => parseLoop strict rest (S lineNum) result'
      end.
Proof. reflexivity. Qed.

Lemma scanTokens_cons (t : str) (rest : list str) :
  fitsScanner t -> dropCR t = t -> scanTokens (t :: rest) = t :: scanTokens rest.
Proof.
  intros Hfit Hcr. simpl. rewrite Hcr.
  by replace (N.of_nat (length t) <? MaxScanTokenSize)%N with true
    by (symmetry; by apply N.ltb_lt).
Qed.

(** The facts on a body line of the block that the loops of the parser
    consult. *)
Lemma body_line_facts (name value : str) :
  name = "title" \/ name = "date" \/ (name = "tags" /\ value <> []) ->
  fieldValue value ->
  let line := "%% " ++ name ++ ": " ++ value in
  HasPrefix (TrimSpace line) "%" = true
  /\ (LF ∉ line) /\ dropCR line = line /\ line <> []
  /\ isEmpty (TrimSpace line) || HasPrefix (TrimSpace line) "%% Metadata"
     || HasPrefix (TrimSpace line) "% Metadata" = false.
Proof.
  intros Hname Hv. cbv zeta.
  destruct (field_line name value) as (Htrim & Hlf & Hcr & _);
    [by destruct Hname as [->|[->|[-> _]]]..|done|].
  cbv zeta in Htrim. rewrite Htrim.
  by destruct Hname as [->|[->|[-> _]]].
Qed.

Lemma tags_line_facts (tags : list str) :
  Forall tagValue tags ->
  let line := if isEmpty tags then "%% tags: " : str
              else "%% tags: " ++ Join tags ", " in
  HasPrefix (TrimSpace line) "%" = true
  /\ (LF ∉ line) /\ dropCR line = line /\ line <> []
  /\ isEmpty (TrimSpace line) || HasPrefix (TrimSpace line) "%% Metadata"
     || HasPrefix (TrimSpace line) "% Metadata" = false.
Proof.
  intros Htags. destruct tags as [|t ts]; cbv zeta.
  - simpl isEmpty. cbv iota. repeat split; try done.
    intros Hin%list_elem_of_In. simpl in Hin. intuition discriminate.
  - simpl isEmpty. cbv iota.
    pose proof (Join_fieldValue t ts Htags) as Hv.
    apply (body_line_facts "tags" (Join (t :: ts) ", ")); [|done].
    right. right. split; [done|]. by destruct Hv.
Qed.

Lemma four_lines_app (a b c d t : str) :
  (a ++ LF :: b ++ LF :: c ++ LF :: d ++ [LF]) ++ t
  = a ++ LF :: b ++ LF :: c ++ LF :: d ++ LF :: t.
Proof.
  rewrite <- app_assoc. f_equal. simpl. f_equal.
  rewrite <- app_assoc. f_equal. simpl. f_equal.
  rewrite <- app_assoc. f_equal. simpl. f_equal.
  by rewrite <- app_assoc.
Qed.

(** [Parse] on a block as [Format] writes it, whatever the date value,
    followed by text whose first line is no comment. *)
Lemma Parse_Format (strict : bool) (today title date : str) (tags : list str)
    (tail : str) :
  fieldValue title -> fieldValue date -> Forall tagValue tags ->
  fitsScanner ("%% title: " ++ title) -> fitsScanner ("%% date: " ++ date) ->
  fitsScanner ("%% tags: " ++ Join tags ", ") ->
  HasPrefix (TrimSpace (hd [] (Split tail LF))) "%" = false ->
  Parse strict (Format today {| Title := title; Date := date; Tags := tags |} ++ tail)
  = match validateDate date with
    | None =>
        ({| Meta := {| Title := title; Date := date;
                       Tags := uniqueTags [] tags |};
            Errors := []; Warnings := [] |}, None)
    | Some err =>
        if strict then
          ({| Meta := {| Title := title; Date := date; Tags := [] |};
              Errors := [ {| Line := 3; Field := "date"; Message := err |} ];
              Warnings := [] |}, Some err)
        else
          ({| Meta := {| Title := title; Date := date;
                         Tags := uniqueTags [] tags |};
              Errors := [ {| Line := 3; Field := "date"; Message := err |} ];
              Warnings := [] |}, None)
    end.
Proof.
  intros Htitle Hdate Htags Hfit1 Hfit2 Hfit3 Htail.
  set (l0 := "%% Metadata" : str).
  set (l1 := "%% title: " ++ title).
  set (l2 := "%% date: " ++ date).
  set (l3 := if isEmpty tags then "%% tags: " : str
             else "%% tags: " ++ Join tags ", ").
  destruct (body_line_facts "title" title) as (Hc1 & Hlf1 & Hcr1 & Hne1 & Hskip1);
    [by left | done |].
  destruct (body_line_facts "date" date) as (Hc2 & Hlf2 & Hcr2 & Hne2 & Hskip2);
    [by right; left | done |].
  destruct (tags_line_facts tags Htags) as (Hc3 & Hlf3 & Hcr3 & Hne3 & Hskip3).
  change ("%% " ++ "title" ++ ": " ++ title) with l1 in *.
  change ("%% " ++ "date" ++ ": " ++ date) with l2 in *.
  fold l3 in Hc3, Hlf3, Hcr3, Hne3, Hskip3.
  assert (Hfit3' : fitsScanner l3).
  { unfold l3. destruct tags; [exact Hfit3 | done]. }
  assert (Hlf0 : LF ∉ l0).
  { intros Hin%list_elem_of_In. simpl in Hin. intuition discriminate. }
  assert (Hformat : Format today {| Title := title; Date := date; Tags := tags |}
                    = l0 ++ LF :: l1 ++ LF :: l2 ++ LF :: l3 ++ [LF]).
  { unfold Format, l0, l1, l2, l3. simpl Title. simpl Date. simpl Tags.
    destruct Hdate as (Hd & _). destruct date as [|d0 date]; [done|].
    simpl isEmpty at 1. cbv iota.
    destruct tags; simpl isEmpty; cbv iota; by rewrite <- ?app_assoc. }
  assert (Hblock : extractMetadataBlock
                     (Format today {| Title := title; Date := date; Tags := tags |}
                      ++ tail)
                   = (Join [l0; l1; l2; l3] [LF], 0, true)).
  { unfold extractMetadataBlock. rewrite Hformat.
    rewrite four_lines_app.
    rewrite !Split_app by assumption.
    destruct (Split tail LF) as [|t0 ts] eqn:Hsplit;
      [by destruct (Split_nonempty tail LF)|].
    simpl hd in Htail.
    rewrite extractLoop_cons.
    change (negb false
            && (EqualFold (stripPercent (TrimSpace l0)) "Metadata"
                || HasPrefix (ToLower (stripPercent (TrimSpace l0))) "metadata"))
      with true.
    cbv iota. rewrite extractLoop_cons, Hc1. simpl negb. cbv iota. simpl andb. cbv iota.
    rewrite extractLoop_cons, Hc2. simpl negb. simpl andb. cbv iota.
    rewrite extractLoop_cons, Hc3. simpl negb. simpl andb. cbv iota.
    rewrite extractLoop_cons, Htail. reflexivity. }
  assert (Hscan : scanLines (Join [l0; l1; l2; l3] [LF]) = [l0; l1; l2; l3]).
  { unfold scanLines.
    change (Join [l0; l1; l2; l3] [LF]) with (l0 ++ LF :: l1 ++ LF :: l2 ++ LF :: l3).
    rewrite !Split_app, Split_no_sep by assumption.
    assert (Hdrop : dropFinalEmpty [l0; l1; l2; l3] = [l0; l1; l2; l3]).
    { clear - Hne3. clearbody l3.
      destruct l3 as [|c3 r3]; [by elim Hne3 | reflexivity]. }
    rewrite Hdrop.
    rewrite (scanTokens_cons l0) by (vm_compute; reflexivity).
    rewrite (scanTokens_cons l1), (scanTokens_cons l2), (scanTokens_cons l3)
      by assumption.
    reflexivity. }
  unfold Parse. rewrite Hblock. simpl negb. cbv iota. rewrite Hscan.
  rewrite parseLoop_cons.
  change (isEmpty (TrimSpace l0) || HasPrefix (TrimSpace l0) "%% Metadata"
          || HasPrefix (TrimSpace l0) "% Metadata") with true.
  cbv iota. rewrite parseLoop_cons, Hskip1. unfold l1 at 1.
  rewrite parse_title_line by (assumption || reflexivity).
  rewrite parseLoop_cons, Hskip2. unfold l2 at 1.
  rewrite parse_date_line by (assumption || reflexivity).
  destruct Htitle as (Ht & Httrim & _). destruct Hdate as (Hd & Hdtrim & _).
  assert (Hnorm : forall ts : list str,
            normalizeMetadata {| Title := title; Date := date; Tags := ts |}
            = {| Title := title; Date := date; Tags := uniqueTags [] ts |}).
  { intros ts. unfold normalizeMetadata. simpl. rewrite Httrim, Hdtrim.
    clear - Hd. destruct date as [|d0 date]; [by elim Hd | reflexivity]. }
  assert (Hvalid : forall d ts, validateMetadata
            {| Title := title; Date := d; Tags := ts |} = None).
  { intros d ts. unfold validateMetadata. simpl.
    clear - Ht. destruct title as [|t0 title]; [by elim Ht | reflexivity]. }
  destruct (validateDate date) as [err|] eqn:Hval.
  - destruct strict; [reflexivity|].
    rewrite parseLoop_cons, Hskip3. unfold l3 at 1.
    rewrite parse_tags_line by (assumption || reflexivity). simpl parseLoop.
    unfold addTags, setDate, addError, setTitle, emptyResult. simpl.
    rewrite Hvalid. unfold withMeta. simpl. rewrite Hnorm. reflexivity.
  - rewrite parseLoop_cons, Hskip3. unfold l3 at 1.
    rewrite parse_tags_line by (assumption || reflexivity). simpl parseLoop.
    unfold addTags, setDate, addError, setTitle, emptyResult. simpl.
    rewrite Hvalid. unfold withMeta. simpl. rewrite Hnorm. reflexivity.
Qed.

(** ** Dates *)

Lemma isDigit_plain (c : ascii) :
  isDigit c = true -> isASCII c = true /\ isASCIISpace c = false /\ c <> LF.
Proof.
  destruct c as [[] [] [] [] [] [] [] []]; vm_compute; try discriminate;
    intros _; repeat split; discriminate.
Qed.

(** A string that [time.Parse] accepts as a date is ten bytes of digits and
    hyphens, which a header line carries verbatim. *)
Lemma parsesAsDate_fieldValue (d : str) :
  parsesAsDate d = true -> fieldValue d /\ length d = 10.
Proof.
  intros H.
  destruct d as [|y1 [|y2 [|y3 [|y4 [|h1 [|m1 [|m2 [|h2 [|d1 [|d2 [|x d]]]]]]]]]]];
    try discriminate H.
  unfold parsesAsDate in H. rewrite !andb_true_iff in H.
  destruct H as ((((((Hdig & Hh1) & Hh2) & _) & _) & _) & _).
  cbn [forallb] in Hdig. rewrite !andb_true_iff in Hdig.
  destruct Hdig as (Hy1 & Hy2 & Hy3 & Hy4 & Hm1 & Hm2 & Hd1 & Hd2 & _).
  apply Ascii.eqb_eq in Hh1, Hh2. subst h1 h2.
  apply isDigit_plain in Hy1 as (Ha1 & Hs1 & Hl1).
  apply isDigit_plain in Hy2 as (_ & _ & Hl2).
  apply isDigit_plain in Hy3 as (_ & _ & Hl3).
  apply isDigit_plain in Hy4 as (_ & _ & Hl4).
  apply isDigit_plain in Hm1 as (_ & _ & Hl5).
  apply isDigit_plain in Hm2 as (_ & _ & Hl6).
  apply isDigit_plain in Hd1 as (_ & _ & Hl7).
  apply isDigit_plain in Hd2 as (Ha2 & Hs2 & Hl8).
  split; [|reflexivity]. split; [discriminate|]. split.
  - apply TrimSpace_fix. split; [by apply leadingSpace_plain|].
    change [y1; y2; y3; y4; "-"%char; m1; m2; "-"%char; d1; d2]
      with ([y1; y2; y3; y4; "-"%char; m1; m2; "-"%char; d1] ++ [d2]).
    by apply trailingSpace_plain.
  - rewrite !not_elem_of_cons. repeat split; try congruence; try discriminate.
    apply not_elem_of_nil.
Qed.

Lemma validateDate_None (d : str) :
  validateDate d = None <-> d = [] \/ parsesAsDate d = true.
Proof.
  unfold validateDate. destruct d as [|c d]; [simpl; tauto|].
  change (isEmpty (c :: d)) with false. cbv iota.
  destruct (parsesAsDate (c :: d)); split; try done; try tauto.
  intros [?|?]; discriminate.
Qed.

Lemma validateDate_Some (d : str) :
  d <> [] -> parsesAsDate d = false ->
  validateDate d = Some ("invalid date format (expected YYYY-MM-DD): " ++ d).
Proof.
  intros Hne Hd. unfold validateDate. rewrite Hd.
  destruct d; [by elim Hne | reflexivity].
Qed.

(** ** The lenient parser never fails *)

Lemma parseLoop_lenient (lines : list str) :
  forall (lineNum : nat) (result : ParseResult),
    snd (parseLoop false lines lineNum result) = None.
Proof.
  induction lines as [|line lines IH]; intros lineNum result; [reflexivity|].
  rewrite parseLoop_cons.
  destruct (isEmpty _ || _ || _); [apply IH|].
  destruct (parseMetadataLine false line (S lineNum) result) as [r [e|]]; apply IH.
Qed.

Lemma Parse_lenient (content : str) : snd (Parse false content) = None.
Proof.
  unfold Parse. destruct (extractMetadataBlock content) as [[block start] found].
  destruct found; [|reflexivity]. cbn [negb].
  pose proof (parseLoop_lenient (scanLines block) start emptyResult) as Hloop.
  destruct (parseLoop false (scanLines block) start emptyResult) as [r [e|]];
    [discriminate Hloop|].
  destruct (validateMetadata (Meta r)); reflexivity.
Qed.

Lemma Extract_Parse (content : str) :
  Extract content = inl (Meta (fst (Parse false content))).
Proof.
  unfold Extract. pose proof (Parse_lenient content) as H.
  destruct (Parse false content) as [r [e|]]; [discriminate H | reflexivity].
Qed.

(** A strict parse that succeeds recorded no error, and the lenient parse
    of the same content gives the same result. *)
Lemma parseLoop_strict (lines : list str) :
  forall (lineNum : nat) (result result' : ParseResult),
    parseLoop true lines lineNum result = (result', None) ->
    parseLoop false lines lineNum result = (result', None).
Proof.
  induction lines as [|line lines IH]; intros lineNum result result';
    [done|]. rewrite !parseLoop_cons.
  destruct (isEmpty _ || _ || _); [apply IH|].
  assert (Hline : forall e, snd (parseMetadataLine true line (S lineNum) result) = e ->
            e = None ->
            parseMetadataLine false line (S lineNum) result
            = parseMetadataLine true line (S lineNum) result).
  { intros e He ->. unfold parseMetadataLine in *.
    destruct (matchFieldLine _) as [[m1 m2]|]; [|reflexivity].
    repeat (case_match; try reflexivity; try discriminate He). }
  destruct (parseMetadataLine true line (S lineNum) result) as [r [e|]] eqn:Hp;
    [discriminate|].
  rewrite (Hline None eq_refl eq_refl). apply IH.
Qed.

(** ** The round trip through [Format] and [Parse] *)

Lemma date_line_fits (date : str) :
  length date = 10 -> fitsScanner ("%% date: " ++ date).
Proof.
  intros Hlen. unfold fitsScanner. rewrite length_app, Hlen. vm_compute. reflexivity.
Qed.

Lemma no_tail : HasPrefix (TrimSpace (hd [] (Split [] LF))) "%" = false.
Proof. reflexivity. Qed.

(** C1, as amended: for a header whose title and tags are values that a
    line carries verbatim (not empty, no white space around them, no line
    feed, no comma in a tag) and short enough for the scanner, and whose date
    is a well-formed date, the lenient parse of the text that [Format]
    writes records no error and yields the title and the date of the header
    and its tags without those whose key (lower case, trimmed) an earlier
    tag has: each kept tag in its first-seen casing, in the original
    order. *)
Theorem Format_Parse_round_trip (today : str) (h : Metadata) :
  canonicalHeader h ->
  Parse false (Format today h)
  = ({| Meta := {| Title := Title h; Date := Date h;
                   Tags := uniqueTags [] (Tags h) |};
        Errors := []; Warnings := [] |}, None)
  /\ Extract (Format today h)
     = inl {| Title := Title h; Date := Date h; Tags := uniqueTags [] (Tags h) |}
  /\ uniqueTags [] (Tags h)
     = omap (fun i => if firstSeen tagKey (Tags h) i then Tags h !! i else None)
         (seq 0 (length (Tags h))).
Proof.
  destruct h as [title date tags]. intros (Htitle & Hdate & Htags & Hfit1 & Hfit3).
  cbn [Title Date Tags] in *.
  pose proof (parsesAsDate_fieldValue date Hdate) as [Hvalue Hlen].
  assert (Hparse : Parse false (Format today {| Title := title; Date := date;
                                                 Tags := tags |})
                   = ({| Meta := {| Title := title; Date := date;
                                    Tags := uniqueTags [] tags |};
                         Errors := []; Warnings := [] |}, None)).
  { rewrite <- (app_nil_r (Format today _)).
    rewrite (Parse_Format false today title date tags [] Htitle Hvalue Htags Hfit1
               (date_line_fits date Hlen) Hfit3 no_tail).
    assert (Hvalid : validateDate date = None) by (apply validateDate_None; by right).
    by rewrite Hvalid. }
  split; [exact Hparse|]. split.
  - by rewrite Extract_Parse, Hparse.
  - apply uniqueTags_firstSeenAfter.
Qed.

(** C8, as amended: a date value that is not empty and that [time.Parse]
    rejects is stored as the date all the same, with one more error, of
    field [date], on record; the line returns that error in strict mode
    only.  So the strict parse of a block with such a date stops at its date
    line and returns the error, the value being stored, while the lenient
    parse reads on to the tags and returns none. *)
Theorem invalid_date_recorded (strict : bool) (value : str) (lineNum : nat)
    (result : ParseResult) :
  fieldValue value -> parsesAsDate value = false -> Date (Meta result) = [] ->
  let err : str := "invalid date format (expected YYYY-MM-DD): " ++ value in
  let dateError (n : nat) := {| Line := n; Field := "date"; Message := err |} in
  parseMetadataLine strict ("%% date: " ++ value) lineNum result
  = ({| Meta := {| Title := Title (Meta result); Date := value;
                   Tags := Tags (Meta result) |};
        Errors := Errors result ++ [dateError lineNum];
        Warnings := Warnings result |},
     if strict then Some err else None)
  /\ forall (today title : str) (tags : list str),
       fieldValue title -> Forall tagValue tags ->
       fitsScanner ("%% title: " ++ title) -> fitsScanner ("%% date: " ++ value) ->
       fitsScanner ("%% tags: " ++ Join tags ", ") ->
       Parse true (Format today {| Title := title; Date := value; Tags := tags |})
       = ({| Meta := {| Title := title; Date := value; Tags := [] |};
             Errors := [dateError 3]; Warnings := [] |}, Some err)
       /\ Parse false (Format today {| Title := title; Date := value; Tags := tags |})
          = ({| Meta := {| Title := title; Date := value;
                           Tags := uniqueTags [] tags |};
                Errors := [dateError 3]; Warnings := [] |}, None).
Proof.
  intros Hvalue Hbad Hfirst err dateError.
  assert (Hval : validateDate value = Some err)
    by (apply validateDate_Some; [by destruct Hvalue | exact Hbad]).
  split.
  - rewrite parse_date_line, Hval by assumption. reflexivity.
  - intros today title tags Htitle Htags Hfit1 Hfit2 Hfit3.
    rewrite <- (app_nil_r (Format today _)).
    rewrite !(fun s => Parse_Format s today title value tags [] Htitle Hvalue Htags
                         Hfit1 Hfit2 Hfit3 no_tail).
    rewrite Hval. split; reflexivity.
Qed.

End HeaderLines.

Lemma sample_title : fieldValue "Graph Theory".
Proof.
  split; [discriminate|]. split; [reflexivity|].
  apply (bool_decide_unpack _). vm_compute. reflexivity.
Qed.

Lemma sample_tags : Forall tagValue ["math" : str; "Math" : str; "graphs" : str].
Proof.
  repeat constructor; try discriminate;
    apply (bool_decide_unpack _); vm_compute; reflexivity.
Qed.

Lemma Format_Parse_round_trip_witness :
  canonicalHeader {| metadata.Title := "Graph Theory"; metadata.Date := "2024-01-15";
                     metadata.Tags := ["math" : str; "Math" : str; "graphs" : str] |}
  /\ metadata.Extract (U := asciiOnly)
       (metadata.Format "2024-06-01"
          {| metadata.Title := "Graph Theory"; metadata.Date := "2024-01-15";
             metadata.Tags := ["math" : str; "Math" : str; "graphs" : str] |})
     = inl {| metadata.Title := "Graph Theory"; metadata.Date := "2024-01-15";
              metadata.Tags := metadata.uniqueTags (U := asciiOnly) []
                                 ["math" : str; "Math" : str; "graphs" : str] |}
  /\ metadata.uniqueTags (U := asciiOnly) [] ["math" : str; "Math" : str; "graphs" : str]
     = ["math" : str; "graphs" : str].
Proof.
  assert (Hcanon : canonicalHeader
            {| metadata.Title := "Graph Theory"; metadata.Date := "2024-01-15";
               metadata.Tags := ["math" : str; "Math" : str; "graphs" : str] |}).
  { split; [exact sample_title|]. split; [reflexivity|].
    split; [exact sample_tags|]. split; vm_compute; reflexivity. }
  split; [exact Hcanon|]. split; [|reflexivity].
  exact (proj1 (proj2 (Format_Parse_round_trip (U := asciiOnly) "2024-06-01" _ Hcanon))).
Defined.

(** C1, as stated, fails on a valid header whose title starts with a
    space: the parser trims the value of a field. *)
Lemma round_trip_trims_title :
  validHeader {| metadata.Title := " Notes"; metadata.Date := "2024-01-15";
                 metadata.Tags := [] |}
  /\ metadata.Extract (U := asciiOnly)
       (metadata.Format "2024-06-01"
          {| metadata.Title := " Notes"; metadata.Date := "2024-01-15";
             metadata.Tags := [] |})
     = inl {| metadata.Title := "Notes"; metadata.Date := "2024-01-15";
              metadata.Tags := [] |}
  /\ metadata.Extract (U := asciiOnly)
       (metadata.Format "2024-06-01"
          {| metadata.Title := "Notes"; metadata.Date := "2024-01-15";
             metadata.Tags := ["a,b" : str] |})
     = inl {| metadata.Title := "Notes"; metadata.Date := "2024-01-15";
              metadata.Tags := ["a" : str; "b" : str] |}.
Proof.
  split; [repeat split; discriminate|]. split; vm_compute; reflexivity.
Qed.

Lemma invalid_date_recorded_witness :
  fieldValue "2024-02-30" /\ parsesAsDate "2024-02-30" = false
  /\ metadata.Date (metadata.Meta metadata.emptyResult) = []
  /\ metadata.parseMetadataLine (U := asciiOnly) true ("%% date: " ++ "2024-02-30") 3
       metadata.emptyResult
     = ({| metadata.Meta := {| metadata.Title := []; metadata.Date := "2024-02-30";
                               metadata.Tags := [] |};
           metadata.Errors :=
             [ {| metadata.Line := 3; metadata.Field := "date";
                  metadata.Message :=
                    "invalid date format (expected YYYY-MM-DD): 2024-02-30" |} ];
           metadata.Warnings := [] |},
        Some ("invalid date format (expected YYYY-MM-DD): 2024-02-30" : str)).
Proof.
  assert (Hvalue : fieldValue "2024-02-30").
  { split; [discriminate|]. split; [reflexivity|].
    apply (bool_decide_unpack _). vm_compute. reflexivity. }
  split; [exact Hvalue|]. split; [reflexivity|]. split; [reflexivity|].
  exact (proj1 (invalid_date_recorded (U := asciiOnly) true "2024-02-30" 3 metadata.emptyResult
                  Hvalue eq_refl eq_refl)).
Defined.

(** C8, as stated, fails at the empty value, which is no date and which
    the parser lets pass by design: no error is recorded in either mode. *)
Lemma empty_date_is_allowed :
  parsesAsDate [] = false
  /\ metadata.Parse (U := asciiOnly) false
       ("%% Metadata" ++ [LF] ++ "%% title: Notes" ++ [LF] ++ "%% date:" ++ [LF])
     = ({| metadata.Meta := {| metadata.Title := "Notes"; metadata.Date := [];
                               metadata.Tags := [] |};
           metadata.Errors := []; metadata.Warnings := [] |}, None)
  /\ metadata.Parse (U := asciiOnly) true
       ("%% Metadata" ++ [LF] ++ "%% title: Notes" ++ [LF] ++ "%% date:" ++ [LF])
     = ({| metadata.Meta := {| metadata.Title := "Notes"; metadata.Date := [];
                               metadata.Tags := [] |};
           metadata.Errors := []; metadata.Warnings := [] |}, None).
Proof. split; [reflexivity|]. split; vm_compute; reflexivity. Qed.

(** What [time.Parse] accepts: the days of the calendar, leap years
    included. *)
Example parsesAsDate_calendar :
  parsesAsDate "2024-02-29" = true /\ parsesAsDate "2023-02-29" = false
  /\ parsesAsDate "1900-02-29" = false /\ parsesAsDate "2000-02-29" = true
  /\ parsesAsDate "2024-13-01" = false /\ parsesAsDate "2024-04-31" = false
  /\ parsesAsDate "2024-1-15" = false /\ parsesAsDate "24-01-15" = false
  /\ parsesAsDate "2024-01-15 " = false /\ parsesAsDate "2024/01/15" = false.
Proof. repeat split. Qed.

(** ** The index synchronizer *)

(** C5, as amended: [updateIndexForFile] on a path that no longer exists
    deletes the slug of the path's base name, whatever header the index holds
    for it, and so lowers the count by exactly one when that slug was
    indexed.  On any other path it reads the note again: a note that cannot
    be read leaves the index as it was, prior entry included; a note that can
    is stored under that slug with the title, date and tags that the lenient
    parser finds in its content, the slug standing in for a missing title.
    So a note that starts with the block that [Format] writes for a header is
    indexed with the fields of that header, and a note without a metadata
    block replaces the prior entry by the bare header of its slug. *)
Theorem updateIndexForFile_spec `{U : Unicode} (vault : server.Vault)
    (fs : server.FileSystem) (path : str) (index : gmap str server.NoteHeader) :
  let filename := Base path in
  let slug := server.parseFilenameToSlug filename in
  let index' := server.updateIndexForFile vault fs path index in
  let stored (title date : str) (tags : list str) : server.NoteHeader :=
    {| server.Title := title; server.Date := date; server.Tags := tags;
       server.Slug := slug; server.Filename := filename |} in
  (server.statNotExist fs path = true ->
     index' = server.Index_Delete index slug
     /\ server.Index_Get index' slug = None
     /\ (forall other, other <> slug ->
           server.Index_Get index' other = server.Index_Get index other)
     /\ (is_Some (server.Index_Get index slug) ->
           server.Index_Count index' + 1 = server.Index_Count index))
  /\ (server.statNotExist fs path = false ->
      server.ReadFile fs (server.GetNotePath vault filename) = None ->
      index' = index)
  /\ (forall content : str,
        server.statNotExist fs path = false ->
        server.ReadFile fs (server.GetNotePath vault filename) = Some content ->
        let meta := metadata.Meta (fst (metadata.Parse false content)) in
        let header :=
          stored (if isEmpty (metadata.Title meta) then slug else metadata.Title meta)
            (metadata.Date meta) (metadata.Tags meta) in
        index' = server.Index_Set index slug header
        /\ server.Index_Get index' slug = Some header
        /\ forall other, other <> slug ->
             server.Index_Get index' other = server.Index_Get index other)
  /\ (forall (today : str) (h : metadata.Metadata) (tail : str),
        server.statNotExist fs path = false ->
        server.ReadFile fs (server.GetNotePath vault filename)
        = Some (metadata.Format today h ++ tail) ->
        canonicalHeader h ->
        HasPrefix (TrimSpace (hd [] (Split tail LF))) "%" = false ->
        server.Index_Get index' slug
        = Some (stored (metadata.Title h) (metadata.Date h)
                  (metadata.uniqueTags [] (metadata.Tags h))))
  /\ (forall content : str,
        server.statNotExist fs path = false ->
        server.ReadFile fs (server.GetNotePath vault filename) = Some content ->
        snd (metadata.extractMetadataBlock content) = false ->
        metadata.Errors (fst (metadata.Parse false content))
        = [ {| metadata.Line := 0; metadata.Field := "metadata";
               metadata.Message := "no metadata block found" |} ]
        /\ server.Index_Get index' slug = Some (stored slug [] [])).
Proof.
  intros filename slug index' stored.
  assert (Hread : forall content : str,
            server.statNotExist fs path = false ->
            server.ReadFile fs (server.GetNotePath vault filename) = Some content ->
            index' = server.Index_Set index slug
                       (stored
                          (if isEmpty (metadata.Title
                                         (metadata.Meta (fst (metadata.Parse false content))))
                           then slug
                           else metadata.Title
                                  (metadata.Meta (fst (metadata.Parse false content))))
                          (metadata.Date
                             (metadata.Meta (fst (metadata.Parse false content))))
                          (metadata.Tags
                             (metadata.Meta (fst (metadata.Parse false content)))))).
  { intros content Hstat Hfile. unfold index', server.updateIndexForFile.
    rewrite Hstat. unfold server.parseNoteHeader. fold filename.
    rewrite Hfile, Extract_Parse. reflexivity. }
  split; [|split; [|split; [|split]]].
  - intros Hstat. unfold index', server.updateIndexForFile. rewrite Hstat.
    unfold server.Index_Delete, server.Index_Get, server.Index_Count.
    split; [done|]. split; [apply lookup_delete_eq|]. split.
    + intros other Hne. by apply lookup_delete_ne.
    + intros Hin. rewrite map_size_delete_Some by done.
      destruct (size index) eqn:Hsz; [|simpl; lia].
      apply map_size_empty_iff in Hsz. subst index.
      rewrite lookup_empty in Hin. by destruct Hin.
  - intros Hstat Hfile. unfold index', server.updateIndexForFile.
    rewrite Hstat. unfold server.parseNoteHeader. fold filename.
    by rewrite Hfile.
  - intros content Hstat Hfile meta header.
    rewrite (Hread content Hstat Hfile). fold meta. fold header.
    unfold server.Index_Set, server.Index_Get.
    split; [done|]. split; [apply lookup_insert_eq|].
    intros other Hne. by apply lookup_insert_ne.
  - intros today h tail Hstat Hfile Hcanon Htail.
    rewrite (Hread _ Hstat Hfile). unfold server.Index_Set, server.Index_Get.
    rewrite lookup_insert_eq. f_equal.
    destruct h as [title date tags].
    destruct Hcanon as (Htitle & Hdate & Htags & Hfit1 & Hfit3).
    cbn [metadata.Title metadata.Date metadata.Tags] in *.
    pose proof (parsesAsDate_fieldValue date Hdate) as [Hvalue Hlen].
    rewrite (Parse_Format false today title date tags tail Htitle Hvalue Htags Hfit1
               (date_line_fits date Hlen) Hfit3 Htail).
    assert (Hvalid : metadata.validateDate date = None)
      by (apply validateDate_None; by right).
    rewrite Hvalid. cbn [fst metadata.Meta metadata.Title metadata.Date metadata.Tags].
    destruct Htitle as [Hne _]. destruct title; [by elim Hne | reflexivity].
  - intros content Hstat Hfile Hblock.
    rewrite (Hread _ Hstat Hfile). unfold server.Index_Set, server.Index_Get.
    rewrite lookup_insert_eq. unfold metadata.Parse.
    destruct (metadata.extractMetadataBlock content) as [[block start] found].
    simpl in Hblock. subst found. split; reflexivity.
Qed.

(** The note of the sample vault is indexed with the fields of its header;
    removing the path of an indexed note removes its entry. *)
Example updateIndexForFile_sample :
  server.updateIndexForFile (U := asciiOnly) sample.vault sample.fs
    "/vault/notes/20240101-graph-theory.tex" server.NewIndex
  = server.Index_Set server.NewIndex "graph-theory"
      {| server.Title := "Graph Theory"; server.Date := "2024-01-01";
         server.Tags := ["math" : str]; server.Slug := "graph-theory";
         server.Filename := "20240101-graph-theory.tex" |}
  /\ server.Index_Count
       (server.updateIndexForFile (U := asciiOnly) sample.vault sample.fs
          "/vault/notes/20231201-linear-algebra.tex" sample.index) = 1.
Proof. split; vm_compute; reflexivity. Qed.

(** C5, as stated, fails on a note that can be read and whose metadata does
    not parse: the parser records its failure, and the entry that a former
    version of the note had left is replaced by the bare header of the
    slug. *)
Lemma unparsed_note_replaces_entry :
  metadata.Errors
    (fst (metadata.Parse (U := asciiOnly) false "\documentclass{article}"))
  = [ {| metadata.Line := 0; metadata.Field := "metadata";
         metadata.Message := "no metadata block found" |} ]
  /\ server.Index_Get sample.index "graph-theory"
     = Some (sample.header "graph-theory" "Graph Theory")
  /\ server.Index_Get
       (server.updateIndexForFile (U := asciiOnly) sample.vault sample.plainNotes
          "/vault/notes/20240101-graph-theory.tex" sample.index)
       "graph-theory"
     = Some {| server.Title := "graph-theory"; server.Date := [];
               server.Tags := []; server.Slug := "graph-theory";
               server.Filename := "20240101-graph-theory.tex" |}.
Proof. split; [|split]; vm_compute; reflexivity. Qed.

(** ** Updating a header in place *)

(** C2 at a note whose header line is [%%   Metadata], a form that the
    parser accepts and its tests use: [extractMetadataBlock] finds the block
    and [Parse] reads it, but the scan of [Update] for the end of the block
    only knows the header lines [%% Metadata] and [% Metadata]; the block
    is not replaced, the new one is put in front of the whole old content. *)
Lemma Update_keeps_unrecognised_block `{U : Unicode} (today : str) :
  let content : str :=
    "%%   Metadata" ++ [LF] ++ "%%   title:   Whitespace Test" ++ [LF]
    ++ "%%   date:   2024-01-15" ++ [LF]
    ++ "%%   tags:   tag1  ,  tag2  ,  tag3" ++ [LF] ++ [LF]
    ++ "\documentclass{article}" in
  let m := {| metadata.Title := "New Title"; metadata.Date := "2024-02-01";
              metadata.Tags := [] |} in
  snd (metadata.extractMetadataBlock content) = true
  /\ metadata.Title (metadata.Meta (fst (metadata.Parse false content)))
     = "Whitespace Test"
  /\ metadata.Update today content m = metadata.Format today m ++ content
  /\ metadata.Format today m
     = "%% Metadata" ++ [LF] ++ "%% title: New Title" ++ [LF]
       ++ "%% date: 2024-02-01" ++ [LF] ++ "%% tags: " ++ [LF].
Proof. cbv zeta. repeat split; vm_compute; reflexivity. Qed.

(** With the header line [%% Metadata] the same note is updated as the
    claim says: the block is replaced and the blank line after it dropped. *)
Example Update_replaces_recognised_block `{U : Unicode} (today : str) :
  metadata.Update today
    ("%% Metadata" ++ [LF] ++ "%% title: Old Title" ++ [LF]
     ++ "%% date: 2024-01-01" ++ [LF] ++ "%% tags: old" ++ [LF] ++ [LF]
     ++ "\documentclass{article}" ++ [LF] ++ "Content here")
    {| metadata.Title := "New Title"; metadata.Date := "2024-01-15";
       metadata.Tags := ["new" : str; "updated" : str] |}
  = "%% Metadata" ++ [LF] ++ "%% title: New Title" ++ [LF]
    ++ "%% date: 2024-01-15" ++ [LF] ++ "%% tags: new, updated" ++ [LF]
    ++ "\documentclass{article}" ++ [LF] ++ "Content here".
Proof. vm_compute. reflexivity. Qed.

(** Without a block the new one is put in front, followed by a blank line. *)
Lemma Update_prepends `{U : Unicode} (today content : str) (m : metadata.Metadata) :
  snd (metadata.extractMetadataBlock content) = false ->
  metadata.Update today content m = metadata.Format today m ++ [LF] ++ content.
Proof.
  unfold metadata.Update. destruct (metadata.extractMetadataBlock content) as [[b s] f].
  simpl. by intros ->.
Qed.

(** * Further properties of the parser and of the server *)

(** ** The two modes of the parser *)

Section Modes.
Import metadata.
Context {U : Unicode}.

(** The lenient parser never returns an error, so [Extract] always yields
    metadata, and reading a note fails only when its file cannot be read:
    the fallback branch of [parseNoteHeader] for a failed extraction is
    never taken. *)
Theorem lenient_parse_never_fails (vault : server.Vault) (fs : server.FileSystem)
    (content filename : str) :
  snd (Parse false content) = None
  /\ Extract content = inl (Meta (fst (Parse false content)))
  /\ (server.parseNoteHeader vault fs filename = None
      <-> server.ReadFile fs (server.GetNotePath vault filename) = None)
  /\ (forall header : server.NoteHeader,
        server.parseNoteHeader vault fs filename = Some header ->
        server.Slug header = server.parseFilenameToSlug filename
        /\ server.Filename header = filename
        /\ (server.Title header <> [] \/ server.parseFilenameToSlug filename = [])).
Proof.
  split; [apply Parse_lenient|]. split; [apply Extract_Parse|].
  unfold server.parseNoteHeader.
  destruct (server.ReadFile fs _) as [text|]; [|split; [done|by intros]].
  rewrite Extract_Parse. split; [split; discriminate|].
  intros header [= <-]. cbn. split; [reflexivity|]. split; [reflexivity|].
  destruct (Title (Meta (fst (Parse false text)))) as [|c t] eqn:Ht; cbn.
  - destruct (server.parseFilenameToSlug filename); [by right | by left].
  - by left.
Qed.

Lemma parseMetadataLine_strict_errors (line : str) (lineNum : nat)
    (result result' : ParseResult) :
  parseMetadataLine true line lineNum result = (result', None) ->
  Errors result' = Errors result.
Proof.
  unfold parseMetadataLine.
  destruct (matchFieldLine _) as [[m1 m2]|]; [|by intros [= <-]].
  repeat case_match; intros [= <-]; reflexivity.
Qed.

Lemma parseLoop_strict_errors (lines : list str) :
  forall (lineNum : nat) (result result' : ParseResult),
    parseLoop true lines lineNum result = (result', None) ->
    Errors result' = Errors result.
Proof.
  induction lines as [|line lines IH]; intros lineNum result result'.
  - by intros [= <-].
  - rewrite parseLoop_cons. destruct (isEmpty _ || _ || _); [apply IH|].
    destruct (parseMetadataLine true line (S lineNum) result) as [r [e|]] eqn:Hp;
      [discriminate|].
    intros H%IH. by rewrite H, (parseMetadataLine_strict_errors _ _ _ _ Hp).
Qed.

(** A strict parse that succeeds has recorded no error, and the lenient
    parse of the same content gives the same result. *)
Theorem strict_success_is_clean (content : str) (result : ParseResult) :
  Parse true content = (result, None) ->
  Errors result = [] /\ Parse false content = (result, None).
Proof.
  unfold Parse. destruct (extractMetadataBlock content) as [[block start] found].
  destruct found; [|discriminate]. cbn [negb].
  destruct (parseLoop true (scanLines block) start emptyResult) as [r [e|]] eqn:Hloop;
    [discriminate|].
  rewrite (parseLoop_strict _ _ _ _ Hloop).
  apply parseLoop_strict_errors in Hloop.
  destruct (validateMetadata (Meta r)); [discriminate|].
  intros [= <-]. cbn. split; [exact Hloop | reflexivity].
Qed.

(** ** Writing a header and reading it back *)

Lemma blank_tail (content : str) :
  HasPrefix (TrimSpace (hd [] (Split (LF :: content) LF))) "%" = false.
Proof. rewrite Split_cons. reflexivity. Qed.

(** [Update] on a note without a metadata block puts the new block and a
    blank line in front of the content, and reading the result back gives
    the header that was written (its tags without repetitions). *)
Theorem Update_then_Extract (today content : str) (m : Metadata) :
  snd (extractMetadataBlock content) = false ->
  canonicalHeader m ->
  Update today content m = Format today m ++ [LF] ++ content
  /\ Extract (Update today content m)
     = inl {| Title := Title m; Date := Date m; Tags := uniqueTags [] (Tags m) |}
  /\ snd (extractMetadataBlock (Update today content m)) = true.
Proof.
  intros Hnone Hcanon.
  assert (Hupdate : Update today content m = Format today m ++ [LF] ++ content).
  { unfold Update. destruct (extractMetadataBlock content) as [[b s] f].
    simpl in Hnone. subst f. reflexivity. }
  destruct m as [title date tags].
  destruct Hcanon as (Htitle & Hdate & Htags & Hfit1 & Hfit3).
  cbn [Title Date Tags] in *.
  pose proof (parsesAsDate_fieldValue date Hdate) as [Hvalue Hlen].
  pose proof (Parse_Format false today title date tags (LF :: content) Htitle Hvalue
                Htags Hfit1 (date_line_fits date Hlen) Hfit3 (blank_tail content))
    as Hparse.
  assert (Hvalid : validateDate date = None) by (apply validateDate_None; by right).
  rewrite Hvalid in Hparse.
  split; [exact Hupdate|]. rewrite Hupdate. split.
  - rewrite Extract_Parse. change ([LF] ++ content) with (LF :: content).
    rewrite Hparse. reflexivity.
  - change ([LF] ++ content) with (LF :: content).
    unfold Parse in Hparse.
    destruct (extractMetadataBlock (_ ++ _ :: _)) as [[b s] f].
    destruct f; [reflexivity|].
    apply (f_equal (fun r => length (Errors (fst r)))) in Hparse.
    discriminate Hparse.
Qed.

(** A header without a date is written with the date of the day, and read
    back with it. *)
Theorem Format_fills_date (today title : str) (tags : list str) :
  canonicalHeader {| Title := title; Date := today; Tags := tags |} ->
  Format today {| Title := title; Date := []; Tags := tags |}
  = Format today {| Title := title; Date := today; Tags := tags |}
  /\ Extract (Format today {| Title := title; Date := []; Tags := tags |})
     = inl {| Title := title; Date := today; Tags := uniqueTags [] tags |}.
Proof.
  intros Hcanon.
  assert (Hsame : Format today {| Title := title; Date := []; Tags := tags |}
                  = Format today {| Title := title; Date := today; Tags := tags |}).
  { destruct Hcanon as (_ & Hdate & _). cbn [Date] in Hdate.
    unfold Format. cbn [Title Date Tags]. destruct today; [discriminate Hdate|].
    reflexivity. }
  split; [exact Hsame|]. rewrite Hsame.
  destruct Hcanon as (Htitle & Hdate & Htags & Hfit1 & Hfit3).
  cbn [Title Date Tags] in *.
  pose proof (parsesAsDate_fieldValue today Hdate) as [Hvalue Hlen].
  rewrite Extract_Parse, <- (app_nil_r (Format today _)).
  rewrite (Parse_Format false today title today tags [] Htitle Hvalue Htags Hfit1
             (date_line_fits today Hlen) Hfit3 no_tail).
  assert (Hvalid : validateDate today = None) by (apply validateDate_None; by right).
  rewrite Hvalid. reflexivity.
Qed.

End Modes.

(** ** URIs and managed documents *)

(** [uriToPath] panics exactly on the URIs of one to six bytes; the empty
    URI and [file://] come back as they are, and every other URI loses its
    first seven bytes, whatever they are. *)
Theorem uriToPath_cases (uri : str) :
  (server.uriToPath uri = None <-> 0 < length uri < 7)
  /\ (7 <= length uri -> uri <> "file://" ->
      server.uriToPath uri = Some (drop 7 uri))
  /\ (uri = [] \/ uri = "file://" -> server.uriToPath uri = Some uri).
Proof.
  split; [|split].
  - unfold server.uriToPath, TrimPrefix.
    destruct (HasPrefix uri "file://") eqn:Hp.
    + apply HasPrefix_spec in Hp as [r ->]. rewrite drop_app_length.
      rewrite length_app. cbn [length list_ascii_of_string].
      destruct r; cbn; (split; [discriminate | lia]).
    + destruct uri as [|c uri]; cbn [isEmpty negb length].
      * split; [discriminate | lia].
      * destruct (7 <=? S (length uri))%nat eqn:Hlen.
        -- apply Nat.leb_le in Hlen. split; [discriminate | lia].
        -- apply Nat.leb_gt in Hlen. split; [intros _; lia | reflexivity].
  - intros Hlen Hne.
    by destruct (uriToPath_drops_seven sample.vault sample.fs uri Hne Hlen).
  - by intros [-> | ->].
Qed.

(** ** Completion at the borders *)

(** [Completion] answers with the empty list for a document that is not
    managed or not open and for a position outside the text; at any position
    inside the text of a managed document it offers at least one item, the
    snippets standing in when no context yields any. *)
Theorem Completion_borders (vault : server.Vault) (fs : server.FileSystem)
    (GetDocument : str -> option str) (index : gmap str server.NoteHeader)
    (uri : str) (line character : N) :
  let answer := server.Completion vault fs GetDocument index uri line character in
  (server.IsManaged vault fs uri = None <-> answer = None)
  /\ (server.IsManaged vault fs uri = Some false -> answer = Some server.emptyList)
  /\ (server.IsManaged vault fs uri = Some true ->
      match GetDocument uri with
      | None => answer = Some server.emptyList
      | Some content =>
          match Split content LF !! N.to_nat line with
          | None => answer = Some server.emptyList
          | Some text =>
              if decide (N.to_nat character <= length text)
              then exists items : list server.CompletionItem,
                     answer = Some {| server.IsIncomplete := false;
                                      server.Items := items |}
                     /\ items <> []
              else answer = Some server.emptyList
          end
      end).
Proof.
  cbv zeta. unfold server.Completion.
  destruct (server.IsManaged vault fs uri) as [[|]|].
  - destruct (GetDocument uri) as [content|];
      [|split; [split; discriminate|]; split; [discriminate | reflexivity]].
    rewrite nth_error_lookup.
    destruct (Split content LF !! N.to_nat line) as [text|];
      [|split; [split; discriminate|]; split; [discriminate | reflexivity]].
    destruct (decide (N.to_nat character <= length text)) as [Hle|Hgt].
    + replace (length text <? N.to_nat character)%nat with false
        by (symmetry; apply Nat.ltb_ge; lia).
      split; [split; discriminate|]. split; [discriminate|]. intros _.
      eexists. split; [reflexivity|].
      unfold server.completeLinePrefix.
      match goal with
      | |- (if isEmpty ?items then _ else _) <> [] =>
          destruct items; [discriminate | discriminate]
      end.
    + replace (length text <? N.to_nat character)%nat with true
        by (symmetry; apply Nat.ltb_lt; lia).
      split; [split; discriminate|]. split; [discriminate | reflexivity].
  - split; [split; discriminate|]. split; [reflexivity | discriminate].
  - split; [done|]. split; discriminate.
Qed.

(** ** The index synchronizer, continued *)

Lemma parseNoteHeader_slug `{U : Unicode} (vault : server.Vault)
    (fs : server.FileSystem) (filename : str) (header : server.NoteHeader) :
  server.parseNoteHeader vault fs filename = Some header ->
  server.Slug header = server.parseFilenameToSlug filename.
Proof.
  unfold server.parseNoteHeader. intros H.
  repeat case_match; simplify_eq; reflexivity.
Qed.

Lemma updateIndexForFile_idempotent `{U : Unicode} (vault : server.Vault)
    (fs : server.FileSystem) (path : str) (index : gmap str server.NoteHeader) :
  server.updateIndexForFile vault fs path
    (server.updateIndexForFile vault fs path index)
  = server.updateIndexForFile vault fs path index.
Proof.
  unfold server.updateIndexForFile, server.Index_Delete, server.Index_Set.
  destruct (server.statNotExist fs path); [apply delete_delete_eq|].
  destruct (server.parseNoteHeader vault fs (Base path)) as [h|]; [|done].
  apply insert_insert_eq.
Qed.

(** Handling the same change twice is the same as handling it once; and
    when a note whose slug was not indexed appears and is then removed, the
    index is what it was. *)
Theorem updateIndexForFile_twice `{U : Unicode} (vault : server.Vault)
    (fs fs' : server.FileSystem) (path : str) (index : gmap str server.NoteHeader) :
  server.updateIndexForFile vault fs path
    (server.updateIndexForFile vault fs path index)
  = server.updateIndexForFile vault fs path index
  /\ (server.statNotExist fs' path = true ->
      server.Index_Get index (server.parseFilenameToSlug (Base path)) = None ->
      server.updateIndexForFile vault fs' path
        (server.updateIndexForFile vault fs path index) = index).
Proof.
  split; [apply updateIndexForFile_idempotent|].
  unfold server.updateIndexForFile, server.Index_Delete, server.Index_Set,
    server.Index_Get.
  intros -> Hnone.
  destruct (server.statNotExist fs path).
  { rewrite (delete_id index) by exact Hnone. by apply delete_id. }
  destruct (server.parseNoteHeader vault fs (Base path)) as [h|] eqn:Hh;
    [|by apply delete_id].
  apply parseNoteHeader_slug in Hh. rewrite Hh.
  by rewrite delete_insert_eq, delete_id.
Qed.


(** ** Diagnostics and the index *)


(** ** The matches of a line, in order *)

Lemma findAllFrom_ordered (cmds : list str) (s : str) :
  forall skip pos : nat,
    Forall (fun m => pos + skip <= matchStart m) (findAllFrom cmds skip pos s)
    /\ StronglySorted (fun m m' => matchEnd m <= matchStart m')
         (findAllFrom cmds skip pos s).
Proof.
  induction s as [|c s IH]; intros skip pos; [split; constructor|].
  destruct skip as [|k].
  - rewrite findAllFrom_cons.
    destruct (matchBracedAt cmds (c :: s)) as [[a b]|].
    + destruct (IH b (S pos)) as [Hlow Hsorted]. split.
      * constructor; [simpl; lia|].
        eapply Forall_impl; [exact Hlow|]. simpl. intros; lia.
      * constructor; [exact Hsorted|].
        eapply Forall_impl; [exact Hlow|]. simpl. intros; lia.
    + destruct (IH 0 (S pos)) as [Hlow Hsorted]. split; [|exact Hsorted].
      eapply Forall_impl; [exact Hlow|]. simpl. intros; lia.
  - simpl. destruct (IH k (S pos)) as [Hlow Hsorted]. split; [|exact Hsorted].
    eapply Forall_impl; [exact Hlow|]. simpl. intros; lia.
Qed.

Lemma StronglySorted_cases {A : Type} (R : A -> A -> Prop) (l : list A) (x y : A) :
  StronglySorted R l -> x ∈ l -> y ∈ l -> x = y \/ R x y \/ R y x.
Proof.
  induction 1 as [|z l Hsorted IH Hall]; [by intros ?%elem_of_nil|].
  rewrite Forall_forall in Hall.
  intros [->|Hx]%elem_of_cons [->|Hy]%elem_of_cons; auto.
Qed.

Lemma find_unique {A : Type} (P : A -> bool) (l : list A) (x : A) :
  x ∈ l -> P x = true -> (forall y, y ∈ l -> P y = true -> y = x) ->
  List.find P l = Some x.
Proof.
  induction l as [|z l IH]; [by intros ?%elem_of_nil|].
  intros Hx Hp Huniq. simpl. destruct (P z) eqn:Hz.
  - f_equal. apply Huniq; [by left | done].
  - apply elem_of_cons in Hx as [->|Hx]; [congruence|].
    apply IH; [done..|]. intros y Hy. apply Huniq. by right.
Qed.

(** The one match whose argument holds a given offset. *)
Lemma find_match_at (cmds : list str) (line : str) (m : Match) (c : nat) :
  m ∈ FindAllStringSubmatchIndex cmds line ->
  groupStart m <= c <= groupEnd m ->
  List.find (fun m => (groupStart m <=? c)%nat && (c <=? groupEnd m)%nat)
    (FindAllStringSubmatchIndex cmds line) = Some m.
Proof.
  intros Hm Hc. apply find_unique; [done| |].
  - apply andb_true_iff. split; apply Nat.leb_le; lia.
  - intros m' Hm' Hc'. apply andb_true_iff in Hc' as [Hs He].
    apply Nat.leb_le in Hs, He.
    destruct (findAllFrom_ordered cmds line 0 0) as [_ Hsorted].
    pose proof (findAllFrom_sound cmds line 0 0 m Hm)
      as (? & ? & ? & ? & _ & _ & _ & _ & Hm1 & Hm2 & Hm3 & Hm4).
    pose proof (findAllFrom_sound cmds line 0 0 m' Hm')
      as (? & ? & ? & ? & _ & _ & _ & _ & Hn1 & Hn2 & Hn3 & Hn4).
    destruct (StronglySorted_cases _ _ m' m Hsorted Hm' Hm) as [?|[?|?]];
      [done|simpl in *; lia..].
Qed.

(** ** The reference under the cursor *)

Lemma getSlugAtPosition_at (content : str) (pos : server.Position)
    (line pre cmd arg post : str) :
  Split content LF !! N.to_nat (server.PosLine pos) = Some line ->
  line = pre ++ cmd ++ arg ++ "}" ++ post ->
  cmd ∈ ["\ref{" : str; "\cite{" : str; "\input{" : str; "\include{" : str] ->
  arg <> [] -> "}"%char ∉ arg ->
  closedBefore ["\ref{" : str; "\cite{" : str; "\input{" : str; "\include{" : str]
    pre ->
  length pre + length cmd <= N.to_nat (server.PosCharacter pos)
    <= length pre + length cmd + length arg ->
  server.getSlugAtPosition content pos
  = TrimPrefix (TrimSuffix (TrimSpace arg) ".tex") "../notes/".
Proof.
  intros Hline -> Hcmd Harg Hbrace Hclosed Hpos.
  unfold server.getSlugAtPosition. rewrite nth_error_lookup, Hline.
  rewrite (find_match_at _ _
             {| matchStart := length pre;
                groupStart := length pre + length cmd;
                groupEnd := length pre + length cmd + length arg;
                matchEnd := length pre + length cmd + length arg + 1 |}).
  - cbn [groupStart groupEnd]. by rewrite slice_argument.
  - apply findAll_complete; try done. apply linkPattern_commands.
  - exact Hpos.
Qed.

(** [getSlugAtPosition] yields the empty string for a line outside the
    document.  With the cursor on the argument of a [\ref], [\cite],
    [\input] or [\include] occurrence, from its first byte to the closing
    brace, it yields the argument trimmed, without a trailing [.tex] and
    without a leading [../notes/], provided that the occurrence lies in the
    argument of no earlier command; and whatever it yields that is not empty
    comes from such an argument under the cursor. *)
Theorem getSlugAtPosition_spec (content : str) (pos : server.Position) :
  let links := ["\ref{" : str; "\cite{" : str; "\input{" : str; "\include{" : str] in
  let under (line pre cmd arg post : str) :=
    Split content LF !! N.to_nat (server.PosLine pos) = Some line
    /\ line = pre ++ cmd ++ arg ++ "}" ++ post
    /\ cmd ∈ links /\ arg <> [] /\ ("}"%char ∉ arg)
    /\ length pre + length cmd <= N.to_nat (server.PosCharacter pos)
       <= length pre + length cmd + length arg in
  (Split content LF !! N.to_nat (server.PosLine pos) = None ->
   server.getSlugAtPosition content pos = [])
  /\ (forall line pre cmd arg post : str,
        under line pre cmd arg post -> closedBefore links pre ->
        server.getSlugAtPosition content pos
        = TrimPrefix (TrimSuffix (TrimSpace arg) ".tex") "../notes/")
  /\ (server.getSlugAtPosition content pos <> [] ->
      exists line pre cmd arg post : str,
        under line pre cmd arg post
        /\ server.getSlugAtPosition content pos
           = TrimPrefix (TrimSuffix (TrimSpace arg) ".tex") "../notes/").
Proof.
  intros links under. split; [|split].
  - intros Hnone. unfold server.getSlugAtPosition.
    by rewrite nth_error_lookup, Hnone.
  - intros line pre cmd arg post (Hline & Heq & Hcmd & Harg & Hbrace & Hpos) Hclosed.
    by apply (getSlugAtPosition_at content pos line pre cmd arg post).
  - unfold server.getSlugAtPosition. rewrite nth_error_lookup.
    destruct (Split content LF !! N.to_nat (server.PosLine pos)) as [line|];
      [|done].
    destruct (List.find _ _) as [m|] eqn:Hfind; [|done]. intros _.
    apply find_some in Hfind as [Hm Hc]. apply list_elem_of_In in Hm.
    apply andb_true_iff in Hc as [Hs He]. apply Nat.leb_le in Hs, He.
    apply findAllFrom_sound in Hm
      as (pre & cmd & arg & post & Hcmd & -> & Harg & Hbrace & _ & Hgs & Hge & _).
    simpl in Hgs. rewrite Hge, Hgs in *. rewrite slice_argument.
    exists (pre ++ cmd ++ arg ++ "}" ++ post), pre, cmd, arg, post.
    repeat split; try done; lia.
Qed.

(** Go to definition on a reference to an indexed note answers with the
    start of the file of that note, and with nothing when the index lacks the
    slug. *)
Theorem Definition_of_reference (vault : server.Vault) (fs : server.FileSystem)
    (GetDocument : str -> option str) (index : gmap str server.NoteHeader)
    (uri content : str) (pos : server.Position) (line pre cmd arg post : str) :
  server.IsManaged vault fs uri = Some true ->
  GetDocument uri = Some content ->
  Split content LF !! N.to_nat (server.PosLine pos) = Some line ->
  line = pre ++ cmd ++ arg ++ "}" ++ post ->
  cmd ∈ ["\ref{" : str; "\cite{" : str; "\input{" : str; "\include{" : str] ->
  arg <> [] -> "}"%char ∉ arg ->
  closedBefore ["\ref{" : str; "\cite{" : str; "\input{" : str; "\include{" : str]
    pre ->
  length pre + length cmd <= N.to_nat (server.PosCharacter pos)
    <= length pre + length cmd + length arg ->
  let slug := TrimPrefix (TrimSuffix (TrimSpace arg) ".tex") "../notes/" in
  server.Definition_ vault fs GetDocument index uri pos
  = match index !! slug with
    | Some note =>
        if isEmpty slug then Some []
        else
          Some [ {| server.LocationURI :=
                      "file://" ++ server.GetNotePath vault (server.Filename note);
                    server.LocationRange :=
                      {| server.RangeStart :=
                           {| server.PosLine := 0; server.PosCharacter := 0 |};
                         server.RangeEnd :=
                           {| server.PosLine := 0; server.PosCharacter := 0 |} |} |} ]
    | None => Some []
    end.
Proof.
  intros Hmanaged Hdoc Hline Heq Hcmd Harg Hbrace Hclosed Hpos slug.
  unfold server.Definition_. rewrite Hmanaged, Hdoc.
  rewrite (getSlugAtPosition_at content pos line pre cmd arg post) by done.
  fold slug. unfold server.Index_Get.
  destruct (isEmpty slug); destruct (index !! slug); reflexivity.
Qed.

(** Hovering over a reference to an indexed note shows its title, slug and
    date, and its tags when it has any. *)
Theorem Hover_of_reference (vault : server.Vault) (fs : server.FileSystem)
    (GetDocument : str -> option str) (index : gmap str server.NoteHeader)
    (uri content : str) (pos : server.Position) (line pre cmd arg post : str)
    (note : server.NoteHeader) :
  server.IsManaged vault fs uri = Some true ->
  GetDocument uri = Some content ->
  Split content LF !! N.to_nat (server.PosLine pos) = Some line ->
  line = pre ++ cmd ++ arg ++ "}" ++ post ->
  cmd ∈ ["\ref{" : str; "\cite{" : str; "\input{" : str; "\include{" : str] ->
  arg <> [] -> "}"%char ∉ arg ->
  closedBefore ["\ref{" : str; "\cite{" : str; "\input{" : str; "\include{" : str]
    pre ->
  length pre + length cmd <= N.to_nat (server.PosCharacter pos)
    <= length pre + length cmd + length arg ->
  let slug := TrimPrefix (TrimSuffix (TrimSpace arg) ".tex") "../notes/" in
  slug <> [] -> index !! slug = Some note ->
  let text : str :=
    "**" ++ server.Title note ++ "**" ++ [LF; LF]
    ++ "Slug: `" ++ server.Slug note ++ "`" ++ [LF]
    ++ "Date: " ++ server.Date note in
  server.Hover vault fs GetDocument index uri pos
  = Some (Some {| server.Contents :=
                    {| server.ContentKind := server.Markdown;
                       server.Value :=
                         match server.Tags note with
                         | [] => text
                         | _ :: _ =>
                             text ++ [LF] ++ "Tags: " ++ Join (server.Tags note) ", "
                         end |} |}).
Proof.
  intros Hmanaged Hdoc Hline Heq Hcmd Harg Hbrace Hclosed Hpos slug Hslug Hnote text.
  unfold server.Hover. rewrite Hmanaged, Hdoc.
  rewrite (getSlugAtPosition_at content pos line pre cmd arg post) by done.
  fold slug. unfold server.Index_Get. rewrite Hnote.
  destruct slug; [done|]. cbn [isEmpty].
  destruct (server.Tags note); reflexivity.
Qed.

(** ** TODO markers *)

Lemma todoDiagnostics_elem (lineNum : nat) (line : str) (d : server.Diagnostic) :
  d ∈ server.todoDiagnostics lineNum line <->
  exists m : Match,
    m ∈ FindAllStringSubmatchIndex ["\todo{" : str] line
    /\ d = {| server.DiagRange := server.mkRange lineNum (matchStart m) (matchEnd m);
              server.Severity := server.SeverityWarning;
              server.Message := "TODO: " ++ slice line (groupStart m) (groupEnd m);
              server.Source := "lx-ls" |}.
Proof.
  unfold server.todoDiagnostics. rewrite list_elem_of_fmap. split.
  - intros (m & -> & Hm). eauto.
  - intros (m & Hm & ->). eauto.
Qed.

(** Every warning of [analyzeDiagnostics] marks a [\todo{...}] occurrence
    of a line that is not a comment: its range runs from the backslash to
    the byte after the closing brace, and its message repeats the argument.
    Conversely each such occurrence that lies in the argument of no earlier
    [\todo{] is reported so, whatever the index holds. *)
Theorem todo_warnings (index : gmap str server.NoteHeader) (content : str) :
  let warningAt (lineNum a b : nat) (text : str) : server.Diagnostic :=
    {| server.DiagRange :=
         {| server.RangeStart :=
              {| server.PosLine := (N.of_nat lineNum mod 2 ^ 32)%N;
                 server.PosCharacter := (N.of_nat a mod 2 ^ 32)%N |};
            server.RangeEnd :=
              {| server.PosLine := (N.of_nat lineNum mod 2 ^ 32)%N;
                 server.PosCharacter := (N.of_nat b mod 2 ^ 32)%N |} |};
       server.Severity := server.SeverityWarning;
       server.Message := "TODO: " ++ text;
       server.Source := "lx-ls" |} in
  (forall d : server.Diagnostic,
     d ∈ server.analyzeDiagnostics index content ->
     server.Severity d = server.SeverityWarning ->
     exists (lineNum : nat) (line pre arg post : str),
       Split content LF !! lineNum = Some line
       /\ HasPrefix (TrimSpace line) "%" = false
       /\ line = pre ++ "\todo{" ++ arg ++ "}" ++ post
       /\ arg <> [] /\ ("}"%char ∉ arg)
       /\ d = warningAt lineNum (length pre) (length pre + 6 + length arg + 1) arg)
  /\ (forall (lineNum : nat) (line pre arg post : str),
        Split content LF !! lineNum = Some line ->
        HasPrefix (TrimSpace line) "%" = false ->
        line = pre ++ "\todo{" ++ arg ++ "}" ++ post ->
        arg <> [] -> "}"%char ∉ arg ->
        closedBefore ["\todo{" : str] pre ->
        warningAt lineNum (length pre) (length pre + 6 + length arg + 1) arg
        ∈ server.analyzeDiagnostics index content).
Proof.
  intros warningAt. split.
  - intros d Hd Hsev. apply analyzeLines_elem in Hd as (j & line & Hj & Hd).
    simpl in Hd. unfold server.lineDiagnostics in Hd.
    destruct (server.isCommentLine line) eqn:Hc; [by apply elem_of_nil in Hd|].
    apply elem_of_app in Hd as [Hd|Hd].
    + apply refDiagnostics_elem in Hd as (m & _ & _ & ->). discriminate Hsev.
    + apply todoDiagnostics_elem in Hd as (m & Hm & ->).
      apply findAllFrom_sound in Hm
        as (pre & cmd & arg & post & Hcmd & -> & Harg & Hbrace & Hms & Hgs & Hge & Hme).
      apply list_elem_of_singleton in Hcmd as ->.
      change (0 + length pre) with (length pre) in Hms, Hgs.
      rewrite Hme, Hge, Hgs, Hms, (slice_argument pre "\todo{" arg post).
      exists j, (pre ++ "\todo{" ++ arg ++ "}" ++ post), pre, arg, post.
      repeat split; done.
  - intros lineNum line pre arg post Hj Hc Hline Harg Hbrace Hclosed.
    apply analyzeLines_elem. exists lineNum, line. split; [done|]. simpl.
    unfold server.lineDiagnostics, server.isCommentLine. rewrite Hc.
    apply elem_of_app. right. apply todoDiagnostics_elem.
    exists {| matchStart := length pre;
              groupStart := length pre + length ("\todo{" : str);
              groupEnd := length pre + length ("\todo{" : str) + length arg;
              matchEnd := length pre + length ("\todo{" : str) + length arg + 1 |}.
    split.
    + rewrite Hline. apply findAll_complete; try done;
        [apply todoPattern_commands | by left].
    + cbn [matchStart matchEnd groupStart groupEnd]. rewrite Hline.
      by rewrite (slice_argument pre "\todo{" arg post).
Qed.

(** ** Rebuilding the index *)

Lemma fold_Set_snoc (hs : list server.NoteHeader) (h : server.NoteHeader)
    (index : gmap str server.NoteHeader) :
  fold_left (fun i header => server.Index_Set i (server.Slug header) header)
    (hs ++ [h]) index
  = <[server.Slug h := h]>
      (fold_left (fun i header => server.Index_Set i (server.Slug header) header)
         hs index).
Proof. by rewrite fold_left_app. Qed.

(** What the index holds for a slug after the headers [hs] are stored in
    turn: the last of them with that slug, or else what it held before. *)
Lemma fold_Set_lookup (hs : list server.NoteHeader)
    (index : gmap str server.NoteHeader) (slug : str) :
  fold_left (fun i header => server.Index_Set i (server.Slug header) header) hs index
    !! slug
  = match last (List.filter (fun h => bool_decide (server.Slug h = slug)) hs) with
    | Some h => Some h
    | None => index !! slug
    end.
Proof.
  induction hs as [|h hs IH] using rev_ind; [done|].
  rewrite fold_Set_snoc, List.filter_app. cbn [List.filter].
  destruct (decide (server.Slug h = slug)) as [Heq|Hne].
  - rewrite bool_decide_eq_true_2 by done. rewrite last_snoc.
    by rewrite <- Heq, lookup_insert_eq.
  - rewrite bool_decide_eq_false_2 by done. rewrite app_nil_r.
    by rewrite lookup_insert_ne.
Qed.

Lemma last_filter_elem {A : Type} (P : A -> bool) (l : list A) (x : A) :
  last (List.filter P l) = Some x -> x ∈ l /\ P x = true.
Proof.
  intros Hlast. apply last_Some in Hlast as [l' Hl'].
  assert (Hin : In x (List.filter P l)) by (rewrite Hl'; apply in_or_app; right; by left).
  apply filter_In in Hin as [Hin Hp]. split; [by apply list_elem_of_In | done].
Qed.

Lemma last_filter_None {A : Type} (P : A -> bool) (l : list A) (x : A) :
  last (List.filter P l) = None -> x ∈ l -> P x = false.
Proof.
  intros Hlast Hx. apply last_None in Hlast.
  destruct (P x) eqn:Hp; [|done].
  assert (Hin : In x (List.filter P l))
    by (apply filter_In; split; [by apply list_elem_of_In | done]).
  rewrite Hlast in Hin. destruct Hin.
Qed.

(** [RebuildIndex] fails, and leaves the index alone, when the notes
    directory cannot be read.  Otherwise every note file of the directory
    that can be read is indexed under its slug (by its own header, or by
    that of a later file with the same slug); every entry of the new index
    is an old entry or the header of such a file; no slug is ever removed, so
    that the entries of notes that are gone stay; and rebuilding twice
    changes nothing more. *)
Theorem RebuildIndex_spec `{U : Unicode} (vault : server.Vault)
    (fs : server.FileSystem) (index : gmap str server.NoteHeader) :
  let index' := fst (server.RebuildIndex vault fs index) in
  let noteFile (entry : server.DirEntry) (header : server.NoteHeader) :=
    server.IsDir entry = false /\ HasSuffix (server.Name entry) ".tex" = true
    /\ server.parseNoteHeader vault fs (server.Name entry) = Some header in
  (server.ReadDir fs (server.NotesPath vault) = None ->
   server.RebuildIndex vault fs index = (index, true))
  /\ (forall entries : list server.DirEntry,
        server.ReadDir fs (server.NotesPath vault) = Some entries ->
        snd (server.RebuildIndex vault fs index) = false
        /\ (forall entry header,
              entry ∈ entries -> noteFile entry header ->
              exists header' : server.NoteHeader,
                server.Index_Get index' (server.Slug header) = Some header'
                /\ server.Slug header' = server.Slug header)
        /\ (forall slug note,
              server.Index_Get index' slug = Some note ->
              server.Index_Get index slug = Some note
              \/ exists entry, entry ∈ entries /\ noteFile entry note
                               /\ server.Slug note = slug)
        /\ (forall slug,
              is_Some (server.Index_Get index slug) ->
              is_Some (server.Index_Get index' slug))
        /\ server.RebuildIndex vault fs index' = (index', false)).
Proof.
  intros index' noteFile. unfold index', server.RebuildIndex, server.listNoteHeaders.
  split; [by intros ->|]. intros entries ->. cbn [fst snd].
  set (headers := omap _ entries).
  assert (Hheaders : forall h, h ∈ headers <->
            exists entry, entry ∈ entries /\ noteFile entry h).
  { intros h. unfold headers. rewrite list_elem_of_omap. split.
    - intros (entry & Hin & Hh). exists entry. split; [done|].
      unfold noteFile. destruct (server.IsDir entry); [done|].
      destruct (HasSuffix (server.Name entry) ".tex"); [done|done].
    - intros (entry & Hin & Hdir & Hsuffix & Hh). exists entry. split; [done|].
      by rewrite Hdir, Hsuffix. }
  unfold server.Index_Get. split; [done|]. split; [|split; [|split]].
  - intros entry header Hin Hfile.
    assert (Hh : header ∈ headers) by (apply Hheaders; eauto).
    rewrite fold_Set_lookup.
    destruct (last _) as [h'|] eqn:Hlast.
    + apply last_filter_elem in Hlast as [_ Hslug].
      apply bool_decide_eq_true in Hslug. eauto.
    + apply (last_filter_None _ _ header) in Hlast; [|done].
      by apply bool_decide_eq_false in Hlast.
  - intros slug note. rewrite fold_Set_lookup.
    destruct (last _) as [h'|] eqn:Hlast; [|by left].
    intros [= ->]. right. apply last_filter_elem in Hlast as [Hin Hslug].
    apply bool_decide_eq_true in Hslug. apply Hheaders in Hin as (entry & ? & ?).
    eauto.
  - intros slug Hsome. rewrite fold_Set_lookup. by destruct (last _).
  - f_equal. apply map_eq. intros slug. rewrite !fold_Set_lookup.
    by destruct (last _).
Qed.

(** ** The properties above on the sample vault *)

Lemma sample_header_canonical (date : str) :
  parsesAsDate date = true ->
  canonicalHeader {| metadata.Title := "Graph Theory"; metadata.Date := date;
                     metadata.Tags := ["math" : str; "Math" : str; "graphs" : str] |}.
Proof.
  intros Hdate. split; [exact sample_title|]. split; [exact Hdate|].
  split; [exact sample_tags|]. split; vm_compute; reflexivity.
Qed.

Lemma closedBefore_plain (cmds : list str) (pre : str) :
  (forall cmd : str, cmd ∈ cmds -> exists r : str, cmd = "\"%char :: r) ->
  "\"%char ∉ pre -> closedBefore cmds pre.
Proof.
  intros Hshape Hpre a cmd b Hcmd ->. destruct (Hshape cmd Hcmd) as [r ->].
  destruct Hpre. apply elem_of_app. right. by left.
Qed.

Lemma sample_closed :
  closedBefore ["\ref{" : str; "\cite{" : str; "\input{" : str; "\include{" : str]
    "See ".
Proof.
  apply closedBefore_plain.
  - intros cmd Hcmd. apply linkPattern_commands, refCommands_shape in Hcmd
      as (r & -> & _). by exists r.
  - apply (bool_decide_unpack _). vm_compute. reflexivity.
Qed.

Lemma strict_success_is_clean_witness :
  metadata.Parse (U := asciiOnly) true
    ("%% Metadata" ++ [LF] ++ "%% title: Graph Theory" ++ [LF]
     ++ "%% date: 2024-01-01" ++ [LF] ++ "%% tags: math" ++ [LF])
  = ({| metadata.Meta := {| metadata.Title := "Graph Theory";
                            metadata.Date := "2024-01-01";
                            metadata.Tags := ["math" : str] |};
        metadata.Errors := []; metadata.Warnings := [] |}, None)
  /\ metadata.Parse (U := asciiOnly) false
       ("%% Metadata" ++ [LF] ++ "%% title: Graph Theory" ++ [LF]
        ++ "%% date: 2024-01-01" ++ [LF] ++ "%% tags: math" ++ [LF])
     = ({| metadata.Meta := {| metadata.Title := "Graph Theory";
                               metadata.Date := "2024-01-01";
                               metadata.Tags := ["math" : str] |};
           metadata.Errors := []; metadata.Warnings := [] |}, None).
Proof.
  assert (Hstrict : metadata.Parse (U := asciiOnly) true
            ("%% Metadata" ++ [LF] ++ "%% title: Graph Theory" ++ [LF]
             ++ "%% date: 2024-01-01" ++ [LF] ++ "%% tags: math" ++ [LF])
          = ({| metadata.Meta := {| metadata.Title := "Graph Theory";
                                    metadata.Date := "2024-01-01";
                                    metadata.Tags := ["math" : str] |};
                metadata.Errors := []; metadata.Warnings := [] |}, None))
    by (vm_compute; reflexivity).
  split; [exact Hstrict|].
  exact (proj2 (strict_success_is_clean (U := asciiOnly) _ _ Hstrict)).
Defined.

Lemma Update_then_Extract_witness :
  snd (metadata.extractMetadataBlock (U := asciiOnly) "\documentclass{article}")
  = false
  /\ canonicalHeader
       {| metadata.Title := "Graph Theory"; metadata.Date := "2024-01-15";
          metadata.Tags := ["math" : str; "Math" : str; "graphs" : str] |}
  /\ metadata.Extract (U := asciiOnly)
       (metadata.Update (U := asciiOnly) "2024-06-01" "\documentclass{article}"
          {| metadata.Title := "Graph Theory"; metadata.Date := "2024-01-15";
             metadata.Tags := ["math" : str; "Math" : str; "graphs" : str] |})
     = inl {| metadata.Title := "Graph Theory"; metadata.Date := "2024-01-15";
              metadata.Tags :=
                metadata.uniqueTags (U := asciiOnly) []
                  ["math" : str; "Math" : str; "graphs" : str] |}.
Proof.
  split; [reflexivity|].
  split; [exact (sample_header_canonical "2024-01-15" eq_refl)|].
  exact (proj1 (proj2 (Update_then_Extract (U := asciiOnly) "2024-06-01"
                         "\documentclass{article}" _ eq_refl
                         (sample_header_canonical "2024-01-15" eq_refl)))).
Defined.

Lemma Format_fills_date_witness :
  canonicalHeader
    {| metadata.Title := "Graph Theory"; metadata.Date := "2024-06-01";
       metadata.Tags := ["math" : str; "Math" : str; "graphs" : str] |}
  /\ metadata.Extract (U := asciiOnly)
       (metadata.Format "2024-06-01"
          {| metadata.Title := "Graph Theory"; metadata.Date := [];
             metadata.Tags := ["math" : str; "Math" : str; "graphs" : str] |})
     = inl {| metadata.Title := "Graph Theory"; metadata.Date := "2024-06-01";
              metadata.Tags :=
                metadata.uniqueTags (U := asciiOnly) []
                  ["math" : str; "Math" : str; "graphs" : str] |}.
Proof.
  split; [exact (sample_header_canonical "2024-06-01" eq_refl)|].
  exact (proj2 (Format_fills_date (U := asciiOnly) "2024-06-01" "Graph Theory" _
                  (sample_header_canonical "2024-06-01" eq_refl))).
Defined.


Lemma Definition_of_reference_witness :
  server.IsManaged sample.vault sample.fs "file:///vault/notes/test.tex" = Some true
  /\ length ("See " : str) + length ("\ref{" : str) <= N.to_nat 12
     <= length ("See " : str) + length ("\ref{" : str) + length ("graph-theory" : str)
  /\ server.Definition_ sample.vault sample.fs
       (fun _ => Some ("See \ref{graph-theory}." : str))
       (server.updateIndexForFile (U := asciiOnly) sample.vault sample.fs
          "/vault/notes/20240101-graph-theory.tex" server.NewIndex)
       "file:///vault/notes/test.tex"
       {| server.PosLine := 0; server.PosCharacter := 12 |}
     = Some [ {| server.LocationURI := "file:///vault/notes/20240101-graph-theory.tex";
                 server.LocationRange :=
                   {| server.RangeStart :=
                        {| server.PosLine := 0; server.PosCharacter := 0 |};
                      server.RangeEnd :=
                        {| server.PosLine := 0; server.PosCharacter := 0 |} |} |} ].
Proof.
  split; [reflexivity|]. split; [simpl; lia|].
  rewrite (Definition_of_reference sample.vault sample.fs
             (fun _ => Some ("See \ref{graph-theory}." : str)) _
             "file:///vault/notes/test.tex" "See \ref{graph-theory}."
             {| server.PosLine := 0; server.PosCharacter := 12 |}
             "See \ref{graph-theory}." "See " "\ref{" "graph-theory" ".");
    [vm_compute; reflexivity | reflexivity | reflexivity | reflexivity | reflexivity
    | by left | discriminate
    | apply (bool_decide_unpack _); vm_compute; reflexivity
    | exact sample_closed | simpl; lia].
Defined.

Lemma Hover_of_reference_witness :
  server.IsManaged sample.vault sample.fs "file:///vault/notes/test.tex" = Some true
  /\ length ("See " : str) + length ("\ref{" : str) <= N.to_nat 9
     <= length ("See " : str) + length ("\ref{" : str) + length ("graph-theory" : str)
  /\ server.Hover sample.vault sample.fs
       (fun _ => Some ("See \ref{graph-theory}." : str))
       (server.updateIndexForFile (U := asciiOnly) sample.vault sample.fs
          "/vault/notes/20240101-graph-theory.tex" server.NewIndex)
       "file:///vault/notes/test.tex"
       {| server.PosLine := 0; server.PosCharacter := 9 |}
     = Some (Some {| server.Contents :=
                       {| server.ContentKind := server.Markdown;
                          server.Value :=
                            "**Graph Theory**" ++ [LF; LF] ++ "Slug: `graph-theory`"
                            ++ [LF] ++ "Date: 2024-01-01" ++ [LF] ++ "Tags: math" |} |}).
Proof.
  split; [reflexivity|]. split; [simpl; lia|].
  rewrite (Hover_of_reference sample.vault sample.fs
             (fun _ => Some ("See \ref{graph-theory}." : str)) _
             "file:///vault/notes/test.tex" "See \ref{graph-theory}."
             {| server.PosLine := 0; server.PosCharacter := 9 |}
             "See \ref{graph-theory}." "See " "\ref{" "graph-theory" "."
             {| server.Title := "Graph Theory"; server.Date := "2024-01-01";
                server.Tags := ["math" : str]; server.Slug := "graph-theory";
                server.Filename := "20240101-graph-theory.tex" |});
    [reflexivity | reflexivity | reflexivity | reflexivity | reflexivity
    | by left | discriminate
    | apply (bool_decide_unpack _); vm_compute; reflexivity
    | exact sample_closed | simpl; lia | discriminate | vm_compute; reflexivity].
Defined.

(** The sample vault rebuilt from scratch and then watched. *)
Example RebuildIndex_sample :
  server.RebuildIndex (U := asciiOnly) sample.vault sample.plainNotes sample.index
  = (sample.index, true)
  /\ server.handleFileEvents (U := asciiOnly) sample.vault sample.fs
       ["/vault/notes/20240101-graph-theory.tex" : str; "/vault/notes/notes.txt" : str;
        "/vault/notes/20231201-linear-algebra.tex" : str]
       sample.index
     = server.Index_Set server.NewIndex "graph-theory"
         {| server.Title := "Graph Theory"; server.Date := "2024-01-01";
            server.Tags := ["math" : str]; server.Slug := "graph-theory";
            server.Filename := "20240101-graph-theory.tex" |}.
Proof. split; vm_compute; reflexivity. Qed.
